(** * Conway's Game of Life on a torus: the grid engine of
      [GameOfLife/game_of_life.cpp], embedded and verified.

    The C++ program keeps two square buffers of cells ([lines], the buffer
    that is drawn, and [lines_buffer], the hidden one), seeds the drawn buffer
    with [std::rand], and advances one generation with [go], which runs
    [linesToBuffer] and then [bufferToLines].

    Conventions of the embedding:
    - a [std::vector] is a [list]; [v[i]] is the partial lookup [v !! i]
      (an index outside the vector is undefined behaviour in C++, here the
      operation has no result, [None]); a write through [v[i]] is
      [<[i:=x]> v], guarded by the same lookup;
    - [std::size_t] indices are [nat]: every index the program forms is
      smaller than the size of a vector, so no index arithmetic wraps
      ([lines.size() - 1] is only evaluated inside a loop body, where the
      size is positive);
    - a method that can touch the object takes the grid and returns the new
      grid, inside [option];
    - [std::rand] reads and advances a hidden global state, which is passed
      explicitly ([RandSt]);
    - [double] arithmetic in [rndBool] is modelled by exact rationals, for
      integer percentages. *)

From Stdlib Require Import ZArith QArith Lia Ascii.
From stdpp Require Import base option list numbers.

Local Open Scope nat_scope.

(** ** Loops *)

(** [for (a : l) body], the body threading a state and possibly failing. *)
Fixpoint for_each {A St : Type} (body : A → St → option St) (l : list A) (s : St)
  : option St :=
  match l with
  | [] => Some s
  | a :: l' => s' ← body a s; for_each body l' s'
  end.

(** [for (auto ii = 0; ii < n; ++ii) body]. *)
Definition for_range {St : Type} (n : nat) (body : nat → St → option St) (s : St)
  : option St :=
  for_each body (seq 0 n) s.

(** [for (auto&& x : l) body], where the body may assign to the element [x]
    and threads a state. *)
Fixpoint for_each_mut {A St : Type} (body : A → St → option (A * St))
    (l : list A) (s : St) : option (list A * St) :=
  match l with
  | [] => Some ([], s)
  | x :: l' =>
      '(x', s1) ← body x s;
      '(l'', s2) ← for_each_mut body l' s1;
      Some (x' :: l'', s2)
  end.

(** ** namespace aux *)

Module aux.

(** The state of [std::rand]: the values it is going to return, and how
    many of them have been consumed. *)
Record RandSt := mkRand { draws : nat → Z; pos : nat }.

Definition rand (s : RandSt) : Z * RandSt :=
  (draws s (pos s), mkRand (draws s) (S (pos s))).

(** [int(std::log10(p))] for an integer [p >= 1]: the largest [k] with
    [10^k <= p]. *)
Fixpoint ilog10_aux (fuel : nat) (p : Z) : Z :=
  match fuel with
  | O => 0
  | S f => if (p <? 10)%Z then 0 else (1 + ilog10_aux f (p / 10))%Z
  end.

Definition ilog10 (p : Z) : Z := ilog10_aux (S (Z.to_nat (Z.log2 p))) p.

Definition Qlt_bool (x y : Q) : bool := negb (Qle_bool y x).

(** [rndBool(probability)], for an integer-valued [probability].
    [std::log10] of zero or of a negative number is minus infinity or a
    NaN, whose conversion to [int] is undefined, and so is the conversion
    to [unsigned] of a power of ten that does not fit: no result there. *)
Definition rndBool (probability : Z) (s : RandSt) : option (bool * RandSt) :=
  if decide (probability ≤ 0)%Z then None
  else
    let pow10 := (10 ^ (ilog10 probability + 1) + 1)%Z in
    if decide (2 ^ 32 ≤ pow10)%Z then None
    else
      let probability' := (inject_Z probability / inject_Z pow10)%Q in
      let '(r, s') := rand s in
      let rnd := (inject_Z (r mod pow10) / inject_Z pow10)%Q in
      Some (if Qlt_bool rnd probability' then true else false, s').

End aux.

(** ** class Cell *)

Record Cell := mkCell { alive : bool }.

Definition Cell_isAlive (c : Cell) : bool := alive c.

Definition Cell_setAlive (c : Cell) (a : bool) : Cell := mkCell a.

(** ** class Line *)

Record Line := mkLine { cells_line : list Cell }.

(** [Line(size)]: [cells_line(size, false)]. *)
Definition Line_new (size : nat) : Line := mkLine (replicate size (mkCell false)).

Definition Line_initializeRandomly (probability : Z) (l : Line) (s : aux.RandSt)
  : option (Line * aux.RandSt) :=
  '(cs, s') ← for_each_mut
      (λ cell s, '(al, s1) ← aux.rndBool probability s;
                 Some (Cell_setAlive cell al, s1))
      (cells_line l) s;
  Some (mkLine cs, s').

(** [operator[]]. *)
Definition Line_at (l : Line) (xx : nat) : option Cell := cells_line l !! xx.

(** ** class Grid *)

Record Grid := mkGrid { lines : list Line; lines_buffer : list Line }.

(** [Grid(size)]: [lines(size, size)], [lines_buffer(size, size)]. *)
Definition Grid_new (size : nat) : Grid :=
  mkGrid (replicate size (Line_new size)) (replicate size (Line_new size)).

(** The cell [ls[ii][jj]] of a buffer. *)
Definition cell_at (ls : list Line) (ii jj : nat) : option Cell :=
  l ← ls !! ii; Line_at l jj.

(** [ls[ii][jj].setAlive(a)]. *)
Definition setAlive_at (ls : list Line) (ii jj : nat) (a : bool)
  : option (list Line) :=
  l ← ls !! ii;
  c ← Line_at l jj;
  Some (<[ii := mkLine (<[jj := Cell_setAlive c a]> (cells_line l))]> ls).

Definition Grid_initializeRandomly (probability : Z) (g : Grid) (s : aux.RandSt)
  : option (Grid * aux.RandSt) :=
  '(ls, s') ← for_each_mut (Line_initializeRandomly probability) (lines g) s;
  Some (mkGrid ls (lines_buffer g), s').

Definition size (g : Grid) : nat := length (lines g).

(** [isAlive(xx, yy)]; the method is not [const], so it returns the grid. *)
Definition isAlive (xx yy : nat) (g : Grid) : option (bool * Grid) :=
  c ← cell_at (lines g) xx yy;
  Some (Cell_isAlive c, g).

(** [char(b)]. *)
Definition char_of_bool (b : bool) : nat := if b then 1 else 0.

(** [countAliveCells(ii, jj)]: how many alive cells are around. *)
Definition countAliveCells (g : Grid) (ii jj : nat) : option nat :=
  let xxLEFT := if decide (ii = 0) then size g - 1 else ii - 1 in
  let xxRGHT := if decide (ii = size g - 1) then 0 else ii + 1 in
  let yyLEFT := if decide (jj = 0) then size g - 1 else jj - 1 in
  let yyRGHT := if decide (jj = size g - 1) then 0 else jj + 1 in
  c1 ← cell_at (lines g) ii yyLEFT;
  c2 ← cell_at (lines g) ii yyRGHT;
  c3 ← cell_at (lines g) xxLEFT jj;
  c4 ← cell_at (lines g) xxLEFT yyLEFT;
  c5 ← cell_at (lines g) xxLEFT yyRGHT;
  c6 ← cell_at (lines g) xxRGHT jj;
  c7 ← cell_at (lines g) xxRGHT yyLEFT;
  c8 ← cell_at (lines g) xxRGHT yyRGHT;
  Some (char_of_bool (Cell_isAlive c1)
        + char_of_bool (Cell_isAlive c2)
        + char_of_bool (Cell_isAlive c3)
        + char_of_bool (Cell_isAlive c4)
        + char_of_bool (Cell_isAlive c5)
        + char_of_bool (Cell_isAlive c6)
        + char_of_bool (Cell_isAlive c7)
        + char_of_bool (Cell_isAlive c8)).

(** [lines_buffer[ii][jj].setAlive(a)] on the grid. *)
Definition buffer_setAlive (ii jj : nat) (a : bool) (g : Grid) : option Grid :=
  lb ← setAlive_at (lines_buffer g) ii jj a;
  Some (mkGrid (lines g) lb).

(** The body of the two loops of [linesToBuffer]. *)
Definition linesToBuffer_body (ii jj : nat) (g : Grid) : option Grid :=
  count ← countAliveCells g ii jj;
  c ← cell_at (lines_buffer g) ii jj;
  if Cell_isAlive c then
    match count with
    | 0 | 1 => buffer_setAlive ii jj false g
    | 2 | 3 => buffer_setAlive ii jj true g
    | _ => buffer_setAlive ii jj false g
    end
  else if decide (count = 3) then buffer_setAlive ii jj true g
  else Some g.

(** [linesToBuffer]: decide what to do with the cell: kill, spawn, safe.
    The loop bound [lines.size()] is the same at every test: no iteration
    changes the length of a vector. *)
Definition linesToBuffer (g : Grid) : option Grid :=
  for_range (size g) (λ ii, for_range (size g) (λ jj, linesToBuffer_body ii jj)) g.

(** The body of the two loops of [bufferToLines]. *)
Definition bufferToLines_body (ii jj : nat) (g : Grid) : option Grid :=
  c ← cell_at (lines_buffer g) ii jj;
  ls ← setAlive_at (lines g) ii jj (Cell_isAlive c);
  Some (mkGrid ls (lines_buffer g)).

(** [bufferToLines]: return image from hidden buffer to the drawn buffer. *)
Definition bufferToLines (g : Grid) : option Grid :=
  for_range (size g) (λ ii, for_range (size g) (λ jj, bufferToLines_body ii jj)) g.

Definition go (g : Grid) : option Grid :=
  g1 ← linesToBuffer g;
  bufferToLines g1.

(** ** Specification-side notions *)

(** A buffer of [n] rows of [n] cells each. *)
Definition wf_buf (n : nat) (ls : list Line) : Prop :=
  length ls = n ∧ ∀ i l, ls !! i = Some l → length (cells_line l) = n.

(** Both buffers of a grid have the shape [n] by [n]. *)
Definition wf_grid (n : nat) (g : Grid) : Prop :=
  wf_buf n (lines g) ∧ wf_buf n (lines_buffer g).

(** The alive flag stored at (i,j) of a buffer ([false] outside of it). *)
Definition alive_at (ls : list Line) (i j : nat) : bool :=
  from_option Cell_isAlive false (cell_at ls i j).

(** The classic rule: an alive cell survives with 2 or 3 live neighbours, a
    dead cell is born with exactly 3. *)
Definition classic_rule (a : bool) (count : nat) : bool :=
  if a then (count =? 2) || (count =? 3) else count =? 3.

(** Toroidal wraparound of index [i] moved by [d] on a ring of [n] indices. *)
Definition wrap (n i : nat) (d : Z) : nat :=
  Z.to_nat ((Z.of_nat i + d) `mod` Z.of_nat n).

Definition offsets : list (Z * Z) :=
  [(-1, -1); (-1, 0); (-1, 1); (0, -1); (0, 1); (1, -1); (1, 0); (1, 1)]%Z.

(** The 8 surrounding positions of (i,j) on the torus of side [n]. *)
Definition toroidal_neighbours (n i j : nat) : list (nat * nat) :=
  map (λ d, (wrap n i d.1, wrap n j d.2)) offsets.

(** How many of the 8 surrounding positions hold an alive cell. *)
Definition live_neighbours (ls : list Line) (i j : nat) : nat :=
  length (filter (λ p, alive_at ls p.1 p.2 = true)
                 (toroidal_neighbours (length ls) i j)).

(** The coordinates in the order in which the two nested loops visit them. *)
Definition coords (n : nat) : list (nat * nat) :=
  flat_map (λ ii, map (pair ii) (seq 0 n)) (seq 0 n).

(** The first [k] iterations of the compute phase. *)
Definition linesToBuffer_upto (k : nat) (g : Grid) : option Grid :=
  for_each (λ p, linesToBuffer_body p.1 p.2) (take k (coords (size g))) g.

(** [n] successive calls of [isAlive(xx, yy)], with the values returned. *)
Fixpoint isAlive_times (n : nat) (xx yy : nat) (g : Grid)
  : option (list bool * Grid) :=
  match n with
  | O => Some ([], g)
  | S n' =>
      '(b, g1) ← isAlive xx yy g;
      '(bs, g2) ← isAlive_times n' xx yy g1;
      Some (b :: bs, g2)
  end.

(** The states a caller can bring a grid to: construct, seed, advance. *)
Inductive reachable : Grid → Prop :=
  | reach_construct n : reachable (Grid_new n)
  | reach_seed p g s g' s' :
      reachable g → Grid_initializeRandomly p g s = Some (g', s') →
      reachable g'
  | reach_advance g g' : reachable g → go g = Some g' → reachable g'.

(** A buffer written as rows of flags, for examples. *)
Definition buffer_of (rows : list (list bool)) : list Line :=
  map (λ r, mkLine (map mkCell r)) rows.

Definition flags_of (ls : list Line) : list (list bool) :=
  map (λ l, map Cell_isAlive (cells_line l)) ls.

(** The shape of a concrete grid, checked by computation. *)
Definition wf_bufb (n : nat) (ls : list Line) : bool :=
  (length ls =? n) && forallb (λ l, length (cells_line l) =? n) ls.

(** ** Concrete grids *)

(** A horizontal blinker in the middle of a 5 by 5 buffer. *)
Definition blinker_h : list Line :=
  buffer_of [[false; false; false; false; false];
             [false; false; false; false; false];
             [false; true;  true;  true;  false];
             [false; false; false; false; false];
             [false; false; false; false; false]].

(** The vertical blinker. *)
Definition blinker_v : list Line :=
  buffer_of [[false; false; false; false; false];
             [false; false; true;  false; false];
             [false; false; true;  false; false];
             [false; false; true;  false; false];
             [false; false; false; false; false]].

(** A run of [std::rand] whose draws 11, 12 and 13 are 0 and all others 50:
    with a percentage of 30 exactly the cells (2,1), (2,2) and (2,3) of a
    5 by 5 grid come out alive. *)
Definition rand_blinker : aux.RandSt :=
  aux.mkRand (λ k, if decide (11 ≤ k ≤ 13) then 0%Z else 50%Z) 0.

(** A run of [std::rand] that returns 100 every time. *)
Definition rand_100 : aux.RandSt := aux.mkRand (λ _, 100%Z) 0.

(** The grid after [Grid grid{5}; grid.initializeRandomly(30)] under
    [rand_blinker]: the blinker is drawn, the hidden buffer is still dead. *)
Definition seeded_blinker : Grid := mkGrid blinker_h (lines_buffer (Grid_new 5)).

(** A run of [std::rand] that returns 0 every time. *)
Definition rand_zero : aux.RandSt := aux.mkRand (λ _, 0%Z) 0.

(** ** The console: [draw] and [main] *)

(** What the program does to the outside, one event per call, in order. *)
Inductive Event :=
  | SystemClear              (* std::system("clear") *)
  | PutChar (c : ascii)      (* std::cout << c, a char *)
  | PutInt (n : nat)         (* std::cout << ii, an int that is never negative *)
  | Endl                     (* std::cout << std::endl *)
  | SleepSeconds (n : nat).  (* std::this_thread::sleep_for(std::chrono::seconds(n)) *)

(** The events so far, and the grid. *)
Definition World : Type := list Event * Grid.

(** [std::cout << (b ? '*' : ' ')]. *)
Definition marker (b : bool) : Event := PutChar (if b then "*" else " ")%char.

(** [std::cout << (grid.isAlive(ii, jj) ? '*' : ' ')]. *)
Definition draw_cell (ii jj : nat) (w : World) : option World :=
  '(b, g) ← isAlive ii jj (snd w);
  Some (fst w ++ [marker b], g).

(** One round of the outer loop of [draw]. *)
Definition draw_row (ii : nat) (w : World) : option World :=
  w1 ← for_range (size (snd w)) (draw_cell ii) w;
  Some (fst w1 ++ [PutChar " "%char; PutInt ii; Endl], snd w1).

Definition draw (w : World) : option World :=
  for_range (size (snd w)) draw_row (fst w ++ [SystemClear], snd w).

(** [main] up to the loop: [s] is the state [std::srand(std::time(nullptr))]
    leaves [std::rand] in. *)
Definition main_start (s : aux.RandSt) : option (World * aux.RandSt) :=
  '(g, s') ← Grid_initializeRandomly 30 (Grid_new 20) s;
  Some (([], g), s').

(** One round of [for (;;)] in [main]. *)
Definition main_body (w : World) : option World :=
  w1 ← draw w;
  g ← go (snd w1);
  Some (fst w1 ++ [SleepSeconds 1], g).

(** [main] after the first [k] rounds of its endless loop. *)
Definition main_upto (k : nat) (s : aux.RandSt) : option World :=
  '(w, _) ← main_start s;
  for_each (λ _ : unit, main_body) (replicate k ()) w.

(** ** More specification-side notions *)

(** The flag the [k]-th draw from now gives a cell seeded with percentage
    [p]. *)
Definition seeded_alive (p : Z) (s : aux.RandSt) (k : nat) : bool :=
  bool_decide (aux.draws s (aux.pos s + k) `mod` (10 ^ (aux.ilog10 p + 1) + 1)
               < p)%Z.

(** The events of one row of a frame, and of a whole frame, of a buffer of
    side [n]. *)
Definition row_events (n : nat) (ls : list Line) (i : nat) : list Event :=
  map (λ j, marker (alive_at ls i j)) (seq 0 n)
  ++ [PutChar " "%char; PutInt i; Endl].

Definition frame_events (n : nat) (ls : list Line) : list Event :=
  SystemClear :: flat_map (row_events n ls) (seq 0 n).

(** A 2 by 2 block in a 4 by 4 buffer. *)
Definition block4 : list Line :=
  buffer_of [[false; false; false; false];
             [false; true;  true;  false];
             [false; true;  true;  false];
             [false; false; false; false]].

(** * Lemmas *)

(** ** Loops *)

Section loops.
Context {A St : Type}.

Lemma for_each_app (body : A → St → option St) l1 l2 s :
  for_each body (l1 ++ l2) s = s' ← for_each body l1 s; for_each body l2 s'.
Proof.
  revert s. induction l1 as [|a l1 IH]; intros s; simpl; [done|].
  destruct (body a s) as [s1|]; simpl; [apply IH|done].
Qed.

(** A property kept by every iteration holds when the loop ends, and the
    loop does end with a state. *)
Lemma for_each_preserves (body : A → St → option St) (I : St → Prop) l s :
  (∀ a s, a ∈ l → I s → ∃ s', body a s = Some s' ∧ I s') →
  I s → ∃ s', for_each body l s = Some s' ∧ I s'.
Proof.
  revert s. induction l as [|a l IH]; intros s Hstep Hs; simpl; [eauto|].
  destruct (Hstep a s) as (s1 & -> & Hs1); [left|done|]. simpl.
  apply IH; [|done]. intros b t Hb. apply Hstep. by right.
Qed.

End loops.

Lemma for_each_flat_map {A B St} (body : B → St → option St) (f : A → list B) l s :
  for_each body (flat_map f l) s = for_each (λ a, for_each body (f a)) l s.
Proof.
  revert s. induction l as [|a l IH]; intros s; simpl; [done|].
  rewrite for_each_app. destruct (for_each body (f a) s); simpl; [apply IH|done].
Qed.

(** The invariant rule of the counting loop. *)
Lemma for_range_inv {St} (body : nat → St → option St) (P : nat → St → Prop) n s :
  P 0 s →
  (∀ k s, k < n → P k s → ∃ s', body k s = Some s' ∧ P (S k) s') →
  ∃ s', for_range n body s = Some s' ∧ P n s'.
Proof.
  intros H0 Hstep. unfold for_range.
  assert (∀ len start s, start + len = n → P start s →
    ∃ s', for_each body (seq start len) s = Some s' ∧ P n s') as Hgen.
  { induction len as [|len IH]; intros start t Hlen Ht; simpl.
    - exists t. split; [done|]. by replace n with start by lia.
    - destruct (Hstep start t) as (t1 & -> & Ht1); [lia|done|]. simpl.
      apply IH; [lia|done]. }
  by apply (Hgen n 0).
Qed.

(** Two nested counting loops whose body writes one cell of a view [get]:
    when the body at (i,j) sets that cell to [f i j], provided the cell is
    still as it was at the start, and touches no other cell, the loops set
    every cell to [f i j]. *)
Lemma for_range2_cells {St X} (body : nat → nat → St → option St)
    (I : St → Prop) (get : St → nat → nat → X) (f : nat → nat → X) n s0 :
  I s0 →
  (∀ s i j, I s → i < n → j < n → get s i j = get s0 i j →
     ∃ s', body i j s = Some s' ∧ I s' ∧ get s' i j = f i j ∧
           ∀ i' j', ¬ (i' = i ∧ j' = j) → get s' i' j' = get s i' j') →
  ∃ s', for_range n (λ i, for_range n (body i)) s0 = Some s' ∧ I s' ∧
        ∀ i j, i < n → j < n → get s' i j = f i j.
Proof.
  intros HI Hstep.
  pose (P := λ (k m : nat) (s : St),
    I s ∧ ∀ i j, i < n → j < n →
      get s i j = if decide (i < k ∨ (i = k ∧ j < m)) then f i j else get s0 i j).
  destruct (for_range_inv (λ i, for_range n (body i)) (λ k, P k 0) n s0)
    as (s' & Hrun & HIs' & Hcells).
  - split; [done|]. intros i j _ _. case_decide; [lia|done].
  - intros k s Hk Hs.
    destruct (for_range_inv (body k) (P k) n s) as (s1 & Hrow & HI1 & Hc1).
    + done.
    + intros m t Hm [HIt Ht].
      destruct (Hstep t k m) as (t' & Hb & HIt' & Hnew & Hframe); [done..| |].
      { rewrite Ht by done. case_decide; [lia|done]. }
      exists t'. split; [done|]. split; [done|]. intros i j Hi Hj.
      destruct (decide (i = k ∧ j = m)) as [[-> ->]|Hne].
      * rewrite Hnew. case_decide; [done|lia].
      * rewrite Hframe by done. rewrite Ht by done.
        repeat case_decide; try done; lia.
    + exists s1. split; [done|]. split; [done|]. intros i j Hi Hj.
      rewrite Hc1 by done. repeat case_decide; try done; lia.
  - exists s'. split; [done|]. split; [done|]. intros i j Hi Hj.
    rewrite Hcells by done. case_decide; [done|lia].
Qed.

(** ** Buffers: lookup and assignment of one cell *)

Lemma Cell_eta (c : Cell) : mkCell (Cell_isAlive c) = c.
Proof. by destruct c. Qed.

Lemma cell_at_is_Some n ls i j :
  wf_buf n ls → i < n → j < n → is_Some (cell_at ls i j).
Proof.
  intros [Hlen Hrows] Hi Hj. unfold cell_at, Line_at.
  destruct (lookup_lt_is_Some_2 ls i) as [l Hl]; [lia|].
  rewrite Hl. simpl. apply lookup_lt_is_Some_2.
  rewrite (Hrows i l Hl). lia.
Qed.

Lemma cell_at_alive_at ls i j c :
  cell_at ls i j = Some c → alive_at ls i j = Cell_isAlive c.
Proof. unfold alive_at. by intros ->. Qed.

Lemma cell_at_Some_alive_at n ls i j :
  wf_buf n ls → i < n → j < n →
  cell_at ls i j = Some (mkCell (alive_at ls i j)).
Proof.
  intros Hwf Hi Hj. destruct (cell_at_is_Some n ls i j) as [c Hc]; [done..|].
  by rewrite (cell_at_alive_at _ _ _ _ Hc), Cell_eta.
Qed.

Lemma setAlive_at_is_Some n ls i j a :
  wf_buf n ls → i < n → j < n → is_Some (setAlive_at ls i j a).
Proof.
  intros Hwf Hi Hj. destruct (cell_at_is_Some n ls i j) as [c Hc]; [done..|].
  unfold setAlive_at. unfold cell_at in Hc.
  destruct (ls !! i) as [l|]; simpl in *; [|done]. rewrite Hc. simpl. eauto.
Qed.

Lemma setAlive_at_wf n ls ls' i j a :
  setAlive_at ls i j a = Some ls' → wf_buf n ls → wf_buf n ls'.
Proof.
  unfold setAlive_at. intros Hset [Hlen Hrows].
  destruct (ls !! i) as [l|] eqn:Hl; simpl in Hset; [|done].
  destruct (Line_at l j) as [c|]; simplify_eq/=.
  split; [by rewrite length_insert|].
  intros i' l' Hl'. destruct (decide (i' = i)) as [->|Hne].
  - rewrite list_lookup_insert_eq in Hl'
      by (apply lookup_lt_is_Some; eauto).
    simplify_eq/=. rewrite length_insert. eauto.
  - rewrite list_lookup_insert_ne in Hl' by done. eauto.
Qed.

Lemma cell_at_setAlive_at ls ls' i j a i' j' :
  setAlive_at ls i j a = Some ls' →
  cell_at ls' i' j' =
    if decide (i' = i ∧ j' = j) then Some (mkCell a) else cell_at ls i' j'.
Proof.
  unfold setAlive_at, cell_at, Line_at. intros Hset.
  destruct (ls !! i) as [l|] eqn:Hl; simpl in Hset; [|done].
  destruct (cells_line l !! j) as [c|] eqn:Hc; simplify_eq/=.
  destruct (decide (i' = i)) as [->|Hi].
  - rewrite list_lookup_insert_eq by (apply lookup_lt_is_Some; eauto).
    simpl. destruct (decide (j' = j)) as [->|Hj].
    + rewrite list_lookup_insert_eq by (apply lookup_lt_is_Some; eauto).
      by rewrite decide_True.
    + rewrite list_lookup_insert_ne by done. rewrite Hl. simpl.
      by rewrite decide_False by tauto.
  - rewrite list_lookup_insert_ne by done. by rewrite decide_False by tauto.
Qed.

(** Two buffers of the same shape with the same cells are equal. *)
Lemma wf_buf_ext n ls1 ls2 :
  wf_buf n ls1 → wf_buf n ls2 →
  (∀ i j, i < n → j < n → cell_at ls1 i j = cell_at ls2 i j) →
  ls1 = ls2.
Proof.
  intros [Hlen1 Hrows1] [Hlen2 Hrows2] Hcells.
  apply list_eq_same_length with n; [done..|].
  intros i [cs1] [cs2] Hi Hl1 Hl2. f_equal.
  pose proof (Hrows1 i _ Hl1) as Hc1. pose proof (Hrows2 i _ Hl2) as Hc2.
  simpl in *. apply list_eq_same_length with n; [done..|].
  intros j c1 c2 Hj Hx1 Hx2. specialize (Hcells i j Hi Hj).
  unfold cell_at, Line_at in Hcells. rewrite Hl1, Hl2 in Hcells.
  simpl in Hcells. congruence.
Qed.

Lemma wf_buf_replicate n : wf_buf n (replicate n (Line_new n)).
Proof.
  split; [by rewrite length_replicate|].
  intros i l [-> _]%lookup_replicate. simpl. by rewrite length_replicate.
Qed.

Lemma cell_at_new n i j :
  i < n → j < n → cell_at (replicate n (Line_new n)) i j = Some (mkCell false).
Proof.
  intros Hi Hj. unfold cell_at, Line_at.
  rewrite lookup_replicate_2 by done. simpl. by rewrite lookup_replicate_2.
Qed.

Lemma wf_grid_new n : wf_grid n (Grid_new n).
Proof. split; apply wf_buf_replicate. Qed.

Lemma wf_grid_size n g : wf_grid n g → size g = n.
Proof. by intros [[? _] _]. Qed.

(** ** Neighbour counting *)

Lemma wrap_pred n i :
  i < n → wrap n i (-1) = if decide (i = 0) then n - 1 else i - 1.
Proof.
  intros Hi. unfold wrap. case_decide as H0.
  - subst i. replace (Z.of_nat 0 + -1)%Z with (- (1))%Z by lia.
    destruct (decide (n = 1)) as [->|]; [done|].
    rewrite Z_mod_nz_opp_full; rewrite Z.mod_small; lia.
  - rewrite Z.mod_small; lia.
Qed.

Lemma wrap_same n i : i < n → wrap n i 0 = i.
Proof. intros Hi. unfold wrap. rewrite Z.mod_small; lia. Qed.

Lemma wrap_succ n i :
  i < n → wrap n i 1 = if decide (i = n - 1) then 0 else i + 1.
Proof.
  intros Hi. unfold wrap. case_decide as Hlast.
  - replace (Z.of_nat i + 1)%Z with (Z.of_nat n) by lia.
    by rewrite Z.mod_same by lia.
  - rewrite Z.mod_small; lia.
Qed.

Lemma wrap_lt n i d : 0 < n → wrap n i d < n.
Proof.
  intros Hn. unfold wrap.
  pose proof (Z.mod_pos_bound (Z.of_nat i + d) (Z.of_nat n)). lia.
Qed.

Lemma length_filter_alive ls p l :
  length (filter (λ p, alive_at ls p.1 p.2 = true) (p :: l)) =
  char_of_bool (alive_at ls p.1 p.2)
  + length (filter (λ p, alive_at ls p.1 p.2 = true) l).
Proof. rewrite filter_cons. by destruct (alive_at ls p.1 p.2). Qed.

Lemma live_neighbours_le_8 ls i j : live_neighbours ls i j ≤ 8.
Proof.
  unfold live_neighbours.
  etrans; [apply length_filter|]. unfold toroidal_neighbours.
  by rewrite length_map.
Qed.

(** The count of the code is the count over the 8 toroidal neighbours in
    the drawn buffer. *)
Lemma countAliveCells_live_neighbours n g i j :
  wf_buf n (lines g) → i < n → j < n →
  countAliveCells g i j = Some (live_neighbours (lines g) i j).
Proof.
  intros Hwf Hi Hj. unfold countAliveCells, live_neighbours, size.
  destruct Hwf as [Hlen Hrows]. rewrite Hlen.
  assert (wf_buf n (lines g)) as Hwf by done.
  unfold toroidal_neighbours, offsets. simpl map.
  rewrite !wrap_pred, !wrap_succ, !wrap_same by done.
  set (xL := if decide (i = 0) then n - 1 else i - 1).
  set (xR := if decide (i = n - 1) then 0 else i + 1).
  set (yL := if decide (j = 0) then n - 1 else j - 1).
  set (yR := if decide (j = n - 1) then 0 else j + 1).
  assert (xL < n) by (subst xL; case_decide; lia).
  assert (xR < n) by (subst xR; case_decide; lia).
  assert (yL < n) by (subst yL; case_decide; lia).
  assert (yR < n) by (subst yR; case_decide; lia).
  rewrite !(cell_at_Some_alive_at n) by done. simpl.
  rewrite !length_filter_alive. simpl. f_equal. lia.
Qed.

(** The count only reads the drawn buffer. *)
Lemma countAliveCells_lines g g' i j :
  lines g' = lines g → countAliveCells g' i j = countAliveCells g i j.
Proof. unfold countAliveCells, size. by intros ->. Qed.

(** ** The compute phase *)

Lemma buffer_setAlive_spec n g i j a :
  wf_grid n g → i < n → j < n →
  ∃ g', buffer_setAlive i j a g = Some g' ∧ lines g' = lines g ∧
        wf_grid n g' ∧
        ∀ i' j', cell_at (lines_buffer g') i' j' =
          if decide (i' = i ∧ j' = j) then Some (mkCell a)
          else cell_at (lines_buffer g) i' j'.
Proof.
  intros [Hl Hb] Hi Hj. unfold buffer_setAlive.
  destruct (setAlive_at_is_Some n (lines_buffer g) i j a) as [lb Hlb]; [done..|].
  rewrite Hlb. simpl. eexists. split; [done|]. simpl.
  split; [done|]. split.
  - split; [done|]. simpl. by eapply setAlive_at_wf.
  - intros i' j'. by apply cell_at_setAlive_at.
Qed.

(** One iteration: the hidden cell (i,j) gets the rule applied to its own
    previous value and to the count over the drawn buffer; nothing else
    changes. *)
Lemma linesToBuffer_body_spec n g i j :
  wf_grid n g → i < n → j < n →
  ∃ g', linesToBuffer_body i j g = Some g' ∧ lines g' = lines g ∧
        wf_grid n g' ∧
        ∀ i' j', cell_at (lines_buffer g') i' j' =
          if decide (i' = i ∧ j' = j)
          then Some (mkCell (classic_rule (alive_at (lines_buffer g) i j)
                                          (live_neighbours (lines g) i j)))
          else cell_at (lines_buffer g) i' j'.
Proof.
  intros Hwf Hi Hj. unfold linesToBuffer_body.
  rewrite (countAliveCells_live_neighbours n) by (done || apply Hwf). simpl.
  pose proof (cell_at_Some_alive_at n (lines_buffer g) i j) as Hc.
  rewrite Hc by (done || apply Hwf). simpl.
  set (c := live_neighbours (lines g) i j).
  destruct (alive_at (lines_buffer g) i j) eqn:Ha; unfold classic_rule.
  - destruct c as [|[|[|[|c]]]]; simpl; by apply (buffer_setAlive_spec n).
  - case_decide as H3.
    + rewrite H3. simpl. by apply (buffer_setAlive_spec n).
    + apply Nat.eqb_neq in H3 as ->. exists g.
      split; [done|]. split; [done|]. split; [done|].
      intros i' j'. case_decide as Heq; [|done].
      destruct Heq as [-> ->]. apply Hc; (done || apply Hwf).
Qed.

(** The whole phase: the drawn buffer is as before, and every hidden cell
    holds the rule applied to its previous value and to the count taken in
    the drawn buffer. *)
Lemma linesToBuffer_spec n g :
  wf_grid n g →
  ∃ g', linesToBuffer g = Some g' ∧ lines g' = lines g ∧ wf_grid n g' ∧
        ∀ i j, i < n → j < n →
          cell_at (lines_buffer g') i j =
          Some (mkCell (classic_rule (alive_at (lines_buffer g) i j)
                                     (live_neighbours (lines g) i j))).
Proof.
  intros Hwf. unfold linesToBuffer. rewrite (wf_grid_size n) by done.
  destruct (for_range2_cells linesToBuffer_body
              (λ s, lines s = lines g ∧ wf_grid n s)
              (λ s i j, cell_at (lines_buffer s) i j)
              (λ i j, Some (mkCell (classic_rule (alive_at (lines_buffer g) i j)
                                                 (live_neighbours (lines g) i j))))
              n g) as (g' & Hrun & [Hlines Hwf'] & Hcells).
  - done.
  - intros s i j [Hls Hwfs] Hi Hj Hsame.
    destruct (linesToBuffer_body_spec n s i j) as (s' & Hb & Hl' & Hwf' & Hc);
      [done..|].
    exists s'. split; [done|]. split; [split; [congruence|done]|].
    split.
    + rewrite Hc, decide_True by done.
      unfold alive_at. by rewrite Hsame, Hls.
    + intros i' j' Hne. by rewrite Hc, decide_False.
  - eauto.
Qed.

(** ** The commit phase *)

Lemma bufferToLines_body_spec n g i j :
  wf_grid n g → i < n → j < n →
  ∃ g', bufferToLines_body i j g = Some g' ∧
        lines_buffer g' = lines_buffer g ∧ wf_grid n g' ∧
        ∀ i' j', cell_at (lines g') i' j' =
          if decide (i' = i ∧ j' = j) then cell_at (lines_buffer g) i j
          else cell_at (lines g) i' j'.
Proof.
  intros [Hl Hb] Hi Hj. unfold bufferToLines_body.
  rewrite (cell_at_Some_alive_at n) by done. simpl.
  destruct (setAlive_at_is_Some n (lines g) i j (alive_at (lines_buffer g) i j))
    as [ls Hls]; [done..|].
  rewrite Hls. simpl. eexists. split; [done|]. simpl. split; [done|]. split.
  - split; [|done]. simpl. by eapply setAlive_at_wf.
  - intros i' j'. by apply cell_at_setAlive_at.
Qed.

Lemma bufferToLines_spec n g :
  wf_grid n g →
  ∃ g', bufferToLines g = Some g' ∧ lines_buffer g' = lines_buffer g ∧
        wf_grid n g' ∧ lines g' = lines_buffer g.
Proof.
  intros Hwf. unfold bufferToLines. rewrite (wf_grid_size n) by done.
  destruct (for_range2_cells bufferToLines_body
              (λ s, lines_buffer s = lines_buffer g ∧ wf_grid n s)
              (λ s i j, cell_at (lines s) i j)
              (λ i j, cell_at (lines_buffer g) i j)
              n g) as (g' & Hrun & [Hbuf Hwf'] & Hcells).
  - done.
  - intros s i j [Hbs Hwfs] Hi Hj _.
    destruct (bufferToLines_body_spec n s i j) as (s' & Hb & Hb' & Hwf' & Hc);
      [done..|].
    exists s'. split; [done|]. split; [split; [congruence|done]|].
    split.
    + by rewrite Hc, decide_True, Hbs.
    + intros i' j' Hne. by rewrite Hc, decide_False.
  - exists g'. split; [done|]. split; [done|]. split; [done|].
    apply (wf_buf_ext n); [apply Hwf'|apply Hwf|done].
Qed.

(** ** One generation *)

Lemma go_spec n g :
  wf_grid n g →
  ∃ g', go g = Some g' ∧ wf_grid n g' ∧ lines g' = lines_buffer g' ∧
        ∀ i j, i < n → j < n →
          cell_at (lines g') i j =
          Some (mkCell (classic_rule (alive_at (lines_buffer g) i j)
                                     (live_neighbours (lines g) i j))).
Proof.
  intros Hwf. unfold go.
  destruct (linesToBuffer_spec n g Hwf) as (g1 & -> & Hl1 & Hwf1 & Hc1). simpl.
  destruct (bufferToLines_spec n g1 Hwf1) as (g2 & -> & Hb2 & Hwf2 & Hl2).
  exists g2. split; [done|]. split; [done|]. split; [congruence|].
  intros i j Hi Hj. rewrite Hl2. by apply Hc1.
Qed.

(** ** Seeding *)

Lemma for_each_mut_Forall2 {A St} (body : A → St → option (A * St))
    (R : A → A → Prop) l s l' s' :
  (∀ x s x' s', body x s = Some (x', s') → R x x') →
  for_each_mut body l s = Some (l', s') → Forall2 R l l'.
Proof.
  intros HR. revert s l' s'.
  induction l as [|x l IH]; intros s l' s' Hrun; simpl in Hrun.
  - simplify_eq. constructor.
  - destruct (body x s) as [[x1 s1]|] eqn:Hx; simpl in Hrun; [|done].
    destruct (for_each_mut body l s1) as [[l1 s2]|] eqn:Hl; simplify_eq/=.
    constructor; eauto.
Qed.

Lemma for_each_mut_is_Some {A St} (body : A → St → option (A * St)) l s :
  (∀ x s, is_Some (body x s)) → is_Some (for_each_mut body l s).
Proof.
  intros Hbody. revert s. induction l as [|x l IH]; intros s; simpl; [eauto|].
  destruct (Hbody x s) as [[x1 s1] ->]. simpl.
  destruct (IH s1) as [[l1 s2] ->]. simpl. eauto.
Qed.

Lemma ilog10_aux_bound fuel p :
  (0 ≤ aux.ilog10_aux fuel p ≤ Z.of_nat fuel)%Z.
Proof.
  revert p. induction fuel as [|fuel IH]; intros p; simpl aux.ilog10_aux; [lia|].
  destruct (p <? 10)%Z; [lia|]. specialize (IH (p / 10)%Z). lia.
Qed.

(** For a percentage between 1 and 100 the scale fits an [unsigned]. *)
Lemma pow10_fits p :
  (1 ≤ p ≤ 100)%Z → (1 < 10 ^ (aux.ilog10 p + 1) + 1 < 2 ^ 32)%Z.
Proof.
  intros Hp. unfold aux.ilog10.
  pose proof (ilog10_aux_bound (S (Z.to_nat (Z.log2 p))) p) as Hb.
  assert (Z.log2 p ≤ 6)%Z as Hlog.
  { change 6%Z with (Z.log2 100). apply Z.log2_le_mono. lia. }
  pose proof (Z.log2_nonneg p).
  set (k := aux.ilog10_aux _ _) in *.
  assert (10 ^ (k + 1) ≤ 10 ^ 8)%Z by (apply Z.pow_le_mono_r; lia).
  assert (0 < 10 ^ (k + 1))%Z by (apply Z.pow_pos_nonneg; lia).
  change (10 ^ 8)%Z with 100000000%Z in *.
  change (2 ^ 32)%Z with 4294967296%Z. lia.
Qed.

Lemma Qlt_bool_div a b d :
  (0 < d)%Z →
  aux.Qlt_bool (inject_Z a / inject_Z d) (inject_Z b / inject_Z d)
  = bool_decide (a < b)%Z.
Proof.
  intros Hd. destruct d as [|d|d]; try lia.
  unfold aux.Qlt_bool, Qle_bool, Qdiv, Qmult, Qinv, inject_Z. simpl.
  case_bool_decide as Hab.
  - apply negb_true_iff, Z.leb_gt. nia.
  - apply negb_false_iff, Z.leb_le. nia.
Qed.

(** What [rndBool] returns: it compares the draw, reduced modulo the
    scale, with the percentage itself. *)
Lemma rndBool_spec p s :
  (1 ≤ p ≤ 100)%Z →
  aux.rndBool p s =
  Some (bool_decide
          (aux.draws s (aux.pos s) `mod` (10 ^ (aux.ilog10 p + 1) + 1) < p)%Z,
        aux.mkRand (aux.draws s) (S (aux.pos s))).
Proof.
  intros Hp. pose proof (pow10_fits p Hp) as Hfit. unfold aux.rndBool.
  rewrite decide_False by lia. cbv zeta.
  rewrite decide_False by lia. unfold aux.rand.
  rewrite Qlt_bool_div by lia. by destruct (bool_decide _).
Qed.

Lemma Line_initializeRandomly_is_Some p l s :
  (1 ≤ p ≤ 100)%Z → is_Some (Line_initializeRandomly p l s).
Proof.
  intros Hp. unfold Line_initializeRandomly.
  destruct (for_each_mut_is_Some
    (λ cell s, '(al, s1) ← aux.rndBool p s; Some (Cell_setAlive cell al, s1))
    (cells_line l) s) as [[cs s'] ->]; [|simpl; eauto].
  intros x t. rewrite rndBool_spec by done. simpl. eauto.
Qed.

Lemma Line_initializeRandomly_length p l s l' s' :
  Line_initializeRandomly p l s = Some (l', s') →
  length (cells_line l') = length (cells_line l).
Proof.
  unfold Line_initializeRandomly. intros Hrun.
  destruct (for_each_mut _ _ _) as [[cs t]|] eqn:Hcs; simplify_eq/=.
  symmetry. eapply Forall2_length.
  by apply (for_each_mut_Forall2 _ (λ _ _, True) _ _ _ _ (λ _ _ _ _ _, I) Hcs).
Qed.

(** Seeding leaves the hidden buffer alone and keeps the shape. *)
Lemma Grid_initializeRandomly_frame p g s g' s' :
  Grid_initializeRandomly p g s = Some (g', s') →
  lines_buffer g' = lines_buffer g.
Proof.
  unfold Grid_initializeRandomly. intros Hrun.
  by destruct (for_each_mut _ _ _) as [[ls t]|]; simplify_eq/=.
Qed.

Lemma Grid_initializeRandomly_wf n p g s g' s' :
  Grid_initializeRandomly p g s = Some (g', s') →
  wf_grid n g → wf_grid n g'.
Proof.
  unfold Grid_initializeRandomly. intros Hrun [[Hlen Hrows] Hb].
  destruct (for_each_mut _ _ _) as [[ls t]|] eqn:Hls; simplify_eq/=.
  split; [|done]. simpl.
  pose proof (for_each_mut_Forall2 _
    (λ l l', length (cells_line l') = length (cells_line l)) _ _ _ _
    (Line_initializeRandomly_length p) Hls) as HF.
  split; [by rewrite <- (Forall2_length HF)|].
  intros i l' Hl'.
  destruct (Forall2_lookup_r _ _ _ _ _ HF Hl') as (l & Hl & Heq).
  rewrite Heq. eauto.
Qed.

Lemma Grid_initializeRandomly_is_Some p g s :
  (1 ≤ p ≤ 100)%Z → is_Some (Grid_initializeRandomly p g s).
Proof.
  intros Hp. unfold Grid_initializeRandomly.
  destruct (for_each_mut_is_Some (Line_initializeRandomly p) (lines g) s)
    as [[ls s'] ->]; [|simpl; eauto].
  intros l t. by apply Line_initializeRandomly_is_Some.
Qed.

(** Every state a caller can reach has two square buffers of one size. *)
Lemma reachable_wf g : reachable g → wf_grid (size g) g.
Proof.
  induction 1 as [n|p g s g' s' _ IH Hseed|g g' _ IH Hgo].
  - unfold size. simpl. rewrite length_replicate. apply wf_grid_new.
  - pose proof (Grid_initializeRandomly_wf _ _ _ _ _ _ Hseed IH) as Hwf.
    by rewrite (wf_grid_size _ _ Hwf).
  - destruct (go_spec _ _ IH) as (g1 & Hg1 & Hwf & _). simplify_eq.
    by rewrite (wf_grid_size _ _ Hwf).
Qed.

(** On a one-cell grid a draw of 0 makes the drawn cell alive. *)
Lemma seed_fresh_1_rand_zero p :
  (1 ≤ p ≤ 100)%Z →
  fst <$> Grid_initializeRandomly p (Grid_new 1) rand_zero
  = Some (mkGrid (buffer_of [[true]]) (buffer_of [[false]])).
Proof.
  intros Hp. pose proof (pow10_fits p Hp) as Hfit.
  unfold Grid_initializeRandomly, Grid_new, Line_new.
  cbn [replicate lines lines_buffer for_each_mut].
  unfold Line_initializeRandomly at 1. cbn [cells_line for_each_mut].
  rewrite rndBool_spec by done. cbn [aux.draws aux.pos rand_zero].
  rewrite Z.mod_0_l by lia. rewrite bool_decide_eq_true_2 by lia.
  reflexivity.
Qed.

(** When the hidden buffer holds what is drawn, one generation follows the
    classic rule on the drawn buffer. *)
Lemma go_classic_when_buffers_agree n g :
  wf_grid n g → lines_buffer g = lines g →
  ∃ g', go g = Some g' ∧
        ∀ i j, i < n → j < n →
          cell_at (lines g') i j =
          Some (mkCell (classic_rule (alive_at (lines g) i j)
                                     (live_neighbours (lines g) i j))).
Proof.
  intros Hwf Heq. destruct (go_spec n g Hwf) as (g' & Hgo & _ & _ & Hcells).
  exists g'. split; [done|]. intros i j Hi Hj.
  rewrite Hcells by done. by rewrite Heq.
Qed.

(** While the hidden buffer is stale, a drawn cell with exactly 2 live
    neighbours whose hidden flag is dead does not survive the generation. *)
Lemma go_stale_hidden_cell_dies n g i j :
  wf_grid n g → i < n → j < n →
  alive_at (lines_buffer g) i j = false →
  live_neighbours (lines g) i j = 2 →
  ∃ g', go g = Some g' ∧ cell_at (lines g') i j = Some (mkCell false).
Proof.
  intros Hwf Hi Hj Hstale Hcount.
  destruct (go_spec n g Hwf) as (g' & Hgo & _ & _ & Hcells).
  exists g'. split; [done|]. by rewrite Hcells, Hstale, Hcount.
Qed.

(** ** The two loops as one pass over the coordinates *)

Lemma for_each_ext {A St} (f g : A → St → option St) l s :
  (∀ a s, f a s = g a s) → for_each f l s = for_each g l s.
Proof.
  intros Hfg. revert s. induction l as [|a l IH]; intros s; simpl; [done|].
  rewrite Hfg. destruct (g a s); simpl; [apply IH|done].
Qed.

Lemma for_each_map {A B St} (body : B → St → option St) (f : A → B) l s :
  for_each body (map f l) s = for_each (λ a, body (f a)) l s.
Proof.
  revert s. induction l as [|a l IH]; intros s; simpl; [done|].
  destruct (body (f a) s); simpl; [apply IH|done].
Qed.

Lemma for_range2_coords {St} (body : nat → nat → St → option St) n s :
  for_range n (λ i, for_range n (body i)) s
  = for_each (λ p, body p.1 p.2) (coords n) s.
Proof.
  unfold for_range, coords. rewrite for_each_flat_map.
  apply for_each_ext. intros i t. rewrite for_each_map. reflexivity.
Qed.

Lemma length_coords n : length (coords n) = n * n.
Proof.
  unfold coords.
  assert (∀ l : list nat,
    length (flat_map (λ ii, map (pair ii) (seq 0 n)) l) = length l * n) as Hl.
  { induction l as [|i l IH]; simpl; [done|].
    by rewrite length_app, length_map, length_seq, IH. }
  by rewrite Hl, length_seq.
Qed.

Lemma elem_of_coords n p : p ∈ coords n → p.1 < n ∧ p.2 < n.
Proof.
  unfold coords. rewrite list_elem_of_In, in_flat_map.
  intros (i & Hi%in_seq & Hp). apply in_map_iff in Hp as (j & <- & Hj%in_seq).
  simpl. lia.
Qed.

(** ** Grids without a live cell *)

Lemma live_neighbours_all_dead n ls i j :
  wf_buf n ls → 0 < n →
  (∀ x y, x < n → y < n → alive_at ls x y = false) →
  live_neighbours ls i j = 0.
Proof.
  intros [Hlen _] Hn Hdead. unfold live_neighbours. rewrite Hlen.
  unfold toroidal_neighbours, offsets. simpl map.
  rewrite !length_filter_alive. simpl.
  by rewrite !Hdead by (by apply wrap_lt).
Qed.

Lemma isAlive_alive_at n g x y :
  wf_grid n g → x < n → y < n →
  isAlive x y g = Some (alive_at (lines g) x y, g).
Proof.
  intros [Hl _] Hx Hy. unfold isAlive.
  by rewrite (cell_at_Some_alive_at n).
Qed.

(** ** Checking the shape of a concrete grid *)

Lemma wf_bufb_sound n ls : wf_bufb n ls = true → wf_buf n ls.
Proof.
  unfold wf_bufb. intros [Hlen Hrows]%andb_true_iff.
  apply Nat.eqb_eq in Hlen. split; [done|].
  intros i l Hl. rewrite forallb_forall in Hrows.
  apply Nat.eqb_eq, Hrows, list_elem_of_In. by eapply list_elem_of_lookup_2.
Qed.

Lemma wf_gridb_sound n g :
  wf_bufb n (lines g) && wf_bufb n (lines_buffer g) = true → wf_grid n g.
Proof. intros [??]%andb_true_iff. split; by apply wf_bufb_sound. Qed.

(** * The claims *)

(** C1 (the code departs from the claim). The claim: one [go] makes every
    drawn cell alive exactly when the classic rule, applied to the drawn
    buffer before the call, says so. The code tests the alive flag of the
    hidden buffer instead of the drawn one. On the grid that
    [Grid grid{5}; grid.initializeRandomly(30)] produces under
    [rand_blinker], the cell (2,2) is drawn alive and has 2 live neighbours,
    so the classic rule keeps it alive, and [go] makes it dead. *)
Theorem go_after_seed_departs_from_classic_rule :
  fst <$> Grid_initializeRandomly 30 (Grid_new 5) rand_blinker
    = Some seeded_blinker ∧
  reachable seeded_blinker ∧
  isAlive 2 2 seeded_blinker = Some (true, seeded_blinker) ∧
  countAliveCells seeded_blinker 2 2 = Some 2 ∧
  classic_rule true 2 = true ∧
  ∃ g', go seeded_blinker = Some g' ∧ isAlive 2 2 g' = Some (false, g').
Proof.
  assert (fst <$> Grid_initializeRandomly 30 (Grid_new 5) rand_blinker
          = Some seeded_blinker) as Hseed by (vm_compute; reflexivity).
  split; [exact Hseed|]. split.
  { destruct (Grid_initializeRandomly 30 (Grid_new 5) rand_blinker)
      as [[g s]|] eqn:Hrun; [|discriminate Hseed].
    change (Some g = Some seeded_blinker) in Hseed. injection Hseed as <-.
    eapply reach_seed; [apply (reach_construct 5)|exact Hrun]. }
  split; [reflexivity|]. split; [reflexivity|]. split; [reflexivity|].
  eexists. split; vm_compute; reflexivity.
Qed.

(** C2 (the code departs from the claim). The claim: [seed(p)] makes each
    cell alive with probability exactly p/100, so that [seed(100)] gives an
    all-alive grid. In the code [rndBool(100)] scales by 1001: it answers
    true exactly when the draw modulo 1001 is below 100, about one time in
    ten, and [rndBool(30)] scales by 101. With [std::rand] returning 100,
    [initializeRandomly(100)] leaves every cell of a 2 by 2 grid dead. *)
Theorem seed_100_leaves_dead_cells :
  (∀ s, aux.rndBool 100 s =
        Some (bool_decide (aux.draws s (aux.pos s) `mod` 1001 < 100)%Z,
              aux.mkRand (aux.draws s) (S (aux.pos s)))) ∧
  (∀ s, aux.rndBool 30 s =
        Some (bool_decide (aux.draws s (aux.pos s) `mod` 101 < 30)%Z,
              aux.mkRand (aux.draws s) (S (aux.pos s)))) ∧
  ∃ g' s', Grid_initializeRandomly 100 (Grid_new 2) rand_100 = Some (g', s') ∧
           flags_of (lines g') = [[false; false]; [false; false]].
Proof.
  split; [|split].
  - intros s. rewrite rndBool_spec by lia. reflexivity.
  - intros s. rewrite rndBool_spec by lia. reflexivity.
  - destruct (Grid_initializeRandomly 100 (Grid_new 2) rand_100)
      as [[g' s']|] eqn:Hrun.
    + exists g', s'. split; [reflexivity|].
      assert (flags_of ∘ lines ∘ fst <$>
                Grid_initializeRandomly 100 (Grid_new 2) rand_100
              = Some [[false; false]; [false; false]]) as Hflags
        by (vm_compute; reflexivity).
      rewrite Hrun in Hflags.
      change (Some (flags_of (lines g')) = Some [[false; false]; [false; false]])
        in Hflags.
      congruence.
    + destruct (Grid_initializeRandomly_is_Some 100 (Grid_new 2) rand_100)
        as [? ?]; [lia|congruence].
Qed.

(** C3. On an n by n grid, for a cell (i,j) inside it, [countAliveCells]
    returns the number of alive cells of the drawn buffer among the 8
    surrounding positions on the torus, where i-1 wraps to n-1 at i = 0 and
    i+1 wraps to 0 at i = n-1 (the same for j); the count is at most 8; and
    (n-1,n-1) is the diagonal neighbour of (0,0), so that a live cell there
    is counted for (0,0). *)
Theorem countAliveCells_toroidal n g i j :
  wf_grid n g → i < n → j < n →
  countAliveCells g i j = Some (live_neighbours (lines g) i j) ∧
  live_neighbours (lines g) i j ≤ 8 ∧
  wrap n i (-1) = (if decide (i = 0) then n - 1 else i - 1) ∧
  wrap n i 1 = (if decide (i = n - 1) then 0 else i + 1) ∧
  wrap n j (-1) = (if decide (j = 0) then n - 1 else j - 1) ∧
  wrap n j 1 = (if decide (j = n - 1) then 0 else j + 1) ∧
  (wrap n 0 (-1), wrap n 0 (-1)) = (n - 1, n - 1) ∧
  (alive_at (lines g) (n - 1) (n - 1) = true →
   ∃ c, countAliveCells g 0 0 = Some c ∧ 1 ≤ c).
Proof.
  intros Hwf Hi Hj.
  split; [apply (countAliveCells_live_neighbours n); (done || apply Hwf)|].
  split; [apply live_neighbours_le_8|].
  split; [by apply wrap_pred|]. split; [by apply wrap_succ|].
  split; [by apply wrap_pred|]. split; [by apply wrap_succ|].
  assert (wrap n 0 (-1) = n - 1) as Hdiag.
  { rewrite wrap_pred by lia. by rewrite decide_True. }
  split; [by rewrite Hdiag|].
  intros Halive. exists (live_neighbours (lines g) 0 0).
  split; [apply (countAliveCells_live_neighbours n); (lia || apply Hwf)|].
  unfold live_neighbours, toroidal_neighbours, offsets.
  destruct Hwf as [[-> _] _]. simpl map. rewrite length_filter_alive.
  simpl. rewrite Hdiag, Halive. simpl. lia.
Qed.

Lemma countAliveCells_toroidal_witness :
  wf_grid 5 seeded_blinker ∧ 2 < 5 ∧
  countAliveCells seeded_blinker 2 2
    = Some (live_neighbours (lines seeded_blinker) 2 2) ∧
  live_neighbours (lines seeded_blinker) 2 2 ≤ 8.
Proof.
  assert (wf_grid 5 seeded_blinker) as Hwf
    by (apply wf_gridb_sound; reflexivity).
  split; [exact Hwf|]. split; [lia|].
  destruct (countAliveCells_toroidal 5 seeded_blinker 2 2 Hwf)
    as (Hc & Hle & _); [lia|lia|].
  split; [exact Hc|exact Hle].
Defined.

(** C4 (the code departs from the claim). The claim: a horizontal line of
    3 live cells on a grid of size at least 5 turns into the vertical line
    and back, with period 2. On [seeded_blinker], the grid right after
    seeding, [go] draws only the two ends of the vertical line, (1,2) and
    (3,2), and a second [go] draws nothing at all: the horizontal line
    never comes back. (Once the hidden buffer holds the same line as the
    drawn one, the line does turn, as the last two parts say.) *)
Theorem blinker_after_seed_does_not_oscillate :
  reachable seeded_blinker ∧
  lines seeded_blinker = blinker_h ∧
  (∃ g1 g2,
     go seeded_blinker = Some g1 ∧ go g1 = Some g2 ∧
     lines g1 ≠ blinker_v ∧
     flags_of (lines g1) = [[false; false; false; false; false];
                            [false; false; true;  false; false];
                            [false; false; false; false; false];
                            [false; false; true;  false; false];
                            [false; false; false; false; false]] ∧
     lines g2 ≠ blinker_h ∧
     lines g2 = lines (Grid_new 5)) ∧
  go (mkGrid blinker_h blinker_h) = Some (mkGrid blinker_v blinker_v) ∧
  go (mkGrid blinker_v blinker_v) = Some (mkGrid blinker_h blinker_h).
Proof.
  split.
  { assert (fst <$> Grid_initializeRandomly 30 (Grid_new 5) rand_blinker
            = Some seeded_blinker) as Hseed by (vm_compute; reflexivity).
    destruct (Grid_initializeRandomly 30 (Grid_new 5) rand_blinker)
      as [[g s]|] eqn:Hrun; [|discriminate Hseed].
    change (Some g = Some seeded_blinker) in Hseed. injection Hseed as <-.
    eapply reach_seed; [apply (reach_construct 5)|exact Hrun]. }
  split; [reflexivity|]. split.
  { do 2 eexists. split; [vm_compute; reflexivity|].
    split; [vm_compute; reflexivity|].
    split; [discriminate|]. split; [reflexivity|].
    split; [discriminate|reflexivity]. }
  split; vm_compute; reflexivity.
Qed.

(** C5. During the compute phase of [go] on an n by n grid the drawn buffer
    is never written: the phase is the run of the n*n loop iterations, after
    any number [k] of them the drawn buffer is the one the phase started
    with, so every neighbour count is the count in that one snapshot, and
    the phase as a whole only changes the hidden buffer. *)
Theorem linesToBuffer_reads_one_snapshot n g :
  wf_grid n g →
  ∃ g', linesToBuffer g = Some g' ∧
        linesToBuffer_upto (n * n) g = Some g' ∧
        lines g' = lines g ∧
        ∀ k, ∃ gk, linesToBuffer_upto k g = Some gk ∧
                   lines gk = lines g ∧
                   ∀ i j, countAliveCells gk i j = countAliveCells g i j.
Proof.
  intros Hwf.
  destruct (linesToBuffer_spec n g Hwf) as (g' & Hrun & Hlines & _).
  exists g'. split; [done|].
  unfold linesToBuffer in Hrun. rewrite for_range2_coords in Hrun.
  unfold linesToBuffer_upto. rewrite (wf_grid_size n) in * by done.
  split; [by rewrite take_ge by (by rewrite length_coords)|].
  split; [done|]. intros k.
  destruct (for_each_preserves (λ p, linesToBuffer_body p.1 p.2)
              (λ s, lines s = lines g ∧ wf_grid n s)
              (take k (coords n)) g) as (gk & Hk & Hlk & _).
  - intros p s Hp [Hls Hwfs].
    apply (subseteq_take k), elem_of_coords in Hp as [Hp1 Hp2].
    destruct (linesToBuffer_body_spec n s p.1 p.2) as (s' & Hb & Hl' & Hwf' & _);
      [done..|].
    exists s'. split; [done|]. split; [congruence|done].
  - done.
  - exists gk. split; [done|]. split; [done|].
    intros i j. by apply countAliveCells_lines.
Qed.

Lemma linesToBuffer_reads_one_snapshot_witness :
  wf_grid 5 seeded_blinker ∧
  ∃ g', linesToBuffer seeded_blinker = Some g' ∧
        lines g' = lines seeded_blinker.
Proof.
  assert (wf_grid 5 seeded_blinker) as Hwf
    by (apply wf_gridb_sound; reflexivity).
  split; [exact Hwf|].
  destruct (linesToBuffer_reads_one_snapshot 5 seeded_blinker Hwf)
    as (g' & Hrun & _ & Hl & _).
  exists g'. split; [exact Hrun|exact Hl].
Defined.

(** C6. [initializeRandomly] with a percentage between 1 and 100 returns,
    and leaves the hidden buffer exactly as it was; on a fresh grid the
    hidden buffer is therefore still all dead after seeding, and it can
    differ from the drawn buffer (it does on a grid of one cell when
    [std::rand] returns 0). *)
Theorem initializeRandomly_keeps_hidden_buffer p g s :
  (1 ≤ p ≤ 100)%Z →
  ∃ g' s',
    Grid_initializeRandomly p g s = Some (g', s') ∧
    lines_buffer g' = lines_buffer g ∧
    (∀ n i j, g = Grid_new n → i < n → j < n →
       cell_at (lines_buffer g') i j = Some (mkCell false)) ∧
    ∃ g0 s0, Grid_initializeRandomly p (Grid_new 1) rand_zero = Some (g0, s0) ∧
             cell_at (lines g0) 0 0 ≠ cell_at (lines_buffer g0) 0 0.
Proof.
  intros Hp.
  destruct (Grid_initializeRandomly_is_Some p g s Hp) as [[g' s'] Hrun].
  exists g', s'. split; [done|].
  pose proof (Grid_initializeRandomly_frame _ _ _ _ _ Hrun) as Hframe.
  split; [done|]. split.
  - intros n i j -> Hi Hj. rewrite Hframe. by apply cell_at_new.
  - pose proof (seed_fresh_1_rand_zero p Hp) as Hzero.
    destruct (Grid_initializeRandomly p (Grid_new 1) rand_zero)
      as [[g0 s0]|]; [|discriminate Hzero].
    exists g0, s0. split; [done|].
    change (Some g0 = Some (mkGrid (buffer_of [[true]]) (buffer_of [[false]])))
      in Hzero.
    injection Hzero as ->. discriminate.
Qed.

Lemma initializeRandomly_keeps_hidden_buffer_witness :
  (1 ≤ 30 ≤ 100)%Z ∧
  ∃ g' s', Grid_initializeRandomly 30 (Grid_new 5) rand_blinker = Some (g', s') ∧
           lines_buffer g' = lines_buffer (Grid_new 5).
Proof.
  split; [lia|].
  destruct (initializeRandomly_keeps_hidden_buffer 30 (Grid_new 5) rand_blinker)
    as (g' & s' & Hrun & Hframe & _); [lia|].
  exists g', s'. split; [exact Hrun|exact Hframe].
Defined.

(** C7. When [go] returns, on an n by n grid, the hidden buffer and the
    drawn buffer hold the same cells: at every coordinate, and as whole
    buffers. *)
Theorem go_buffers_agree n g :
  wf_grid n g →
  ∃ g', go g = Some g' ∧
        (∀ i j, i < n → j < n →
           cell_at (lines_buffer g') i j = cell_at (lines g') i j) ∧
        lines_buffer g' = lines g'.
Proof.
  intros Hwf. destruct (go_spec n g Hwf) as (g' & Hgo & _ & Heq & _).
  exists g'. split; [done|]. split; [|done].
  intros i j _ _. by rewrite Heq.
Qed.

Lemma go_buffers_agree_witness :
  wf_grid 5 seeded_blinker ∧
  ∃ g', go seeded_blinker = Some g' ∧ lines_buffer g' = lines g'.
Proof.
  assert (wf_grid 5 seeded_blinker) as Hwf
    by (apply wf_gridb_sound; reflexivity).
  split; [exact Hwf|].
  destruct (go_buffers_agree 5 seeded_blinker Hwf) as (g' & Hgo & _ & Heq).
  exists g'. split; [exact Hgo|exact Heq].
Defined.

(** C8. In every reachable state in which [isAlive] is false at every
    coordinate, [go] returns a grid of the same size in which [isAlive] is
    again false at every coordinate. *)
Theorem go_all_dead g :
  reachable g →
  (∀ x y, x < size g → y < size g → isAlive x y g = Some (false, g)) →
  ∃ g', go g = Some g' ∧ size g' = size g ∧
        ∀ x y, x < size g → y < size g → isAlive x y g' = Some (false, g').
Proof.
  intros Hwf%reachable_wf Hdead. set (n := size g) in *.
  destruct (go_spec n g Hwf) as (g' & Hgo & Hwf' & _ & Hcells).
  exists g'. split; [done|]. split; [by apply wf_grid_size|].
  intros x y Hx Hy.
  rewrite (isAlive_alive_at n) by done. f_equal. f_equal.
  unfold alive_at at 1. rewrite Hcells by done. simpl.
  rewrite (live_neighbours_all_dead n); [|apply Hwf|lia|].
  - by destruct (alive_at (lines_buffer g) x y).
  - intros x' y' Hx' Hy'. specialize (Hdead x' y' Hx' Hy').
    rewrite (isAlive_alive_at n) in Hdead by done. congruence.
Qed.

Lemma go_all_dead_witness :
  reachable (Grid_new 3) ∧
  ∃ g', go (Grid_new 3) = Some g' ∧ size g' = 3 ∧
        isAlive 1 2 g' = Some (false, g').
Proof.
  split; [apply reach_construct|].
  destruct (go_all_dead (Grid_new 3)) as (g' & Hgo & Hsize & Hdead).
  - apply reach_construct.
  - intros x y Hx Hy. unfold isAlive, Grid_new, lines.
    rewrite (cell_at_new 3 x y Hx Hy). reflexivity.
  - exists g'. split; [exact Hgo|]. split; [exact Hsize|].
    apply Hdead; vm_compute; lia.
Defined.

(** C9. [isAlive] is a pure read: for a coordinate inside an n by n grid,
    any number of successive calls return one and the same value, and the
    grid after them, both buffers included, is the grid before them. *)
Theorem isAlive_pure_read n g x y :
  wf_grid n g → x < n → y < n →
  ∃ b, ∀ k, isAlive_times k x y g = Some (replicate k b, g).
Proof.
  intros Hwf Hx Hy. exists (alive_at (lines g) x y).
  induction k as [|k IH]; simpl; [done|].
  rewrite (isAlive_alive_at n) by done. simpl. by rewrite IH.
Qed.

Lemma isAlive_pure_read_witness :
  wf_grid 5 seeded_blinker ∧ 2 < 5 ∧ 3 < 5 ∧
  ∃ b, isAlive_times 4 2 3 seeded_blinker = Some (replicate 4 b, seeded_blinker).
Proof.
  assert (wf_grid 5 seeded_blinker) as Hwf
    by (apply wf_gridb_sound; reflexivity).
  split; [exact Hwf|]. split; [lia|]. split; [lia|].
  destruct (isAlive_pure_read 5 seeded_blinker 2 3 Hwf) as [b Hb]; [lia|lia|].
  exists b. apply Hb.
Defined.

(** C10. A freshly constructed grid of positive size n is all dead:
    [isAlive(x, y)] is false for all x, y below n. *)
Theorem fresh_grid_all_dead n x y :
  0 < n → x < n → y < n →
  isAlive x y (Grid_new n) = Some (false, Grid_new n).
Proof.
  intros _ Hx Hy. unfold isAlive, Grid_new, lines.
  by rewrite cell_at_new.
Qed.

Lemma fresh_grid_all_dead_witness :
  0 < 20 ∧ 7 < 20 ∧ 19 < 20 ∧
  isAlive 7 19 (Grid_new 20) = Some (false, Grid_new 20).
Proof.
  split; [lia|]. split; [lia|]. split; [lia|].
  apply fresh_grid_all_dead; lia.
Defined.

(** * Further properties of the code *)

(** ** The generation step *)

Lemma alive_at_cell_at ls i j b :
  cell_at ls i j = Some (mkCell b) → alive_at ls i j = b.
Proof. unfold alive_at. by intros ->. Qed.

Lemma classic_rule_not_2 h d c : c ≠ 2 → classic_rule h c = classic_rule d c.
Proof.
  intros Hc. apply Nat.eqb_neq in Hc. unfold classic_rule.
  destruct h, d; by rewrite ?Hc.
Qed.

Lemma classic_rule_twice h c :
  classic_rule (classic_rule h c) c = classic_rule h c.
Proof.
  unfold classic_rule.
  destruct h, (c =? 2) eqn:H2, (c =? 3) eqn:H3; simpl; by rewrite ?H2, ?H3.
Qed.

(** X1. What [go] computes: on an n by n grid it returns a grid of the same
    shape in which [isAlive(i, j)] is the rule applied to the flag the
    HIDDEN buffer held at (i,j) and to the number of live neighbours of
    (i,j) in the drawn buffer. *)
Theorem go_cell_rule n g :
  wf_grid n g →
  ∃ g', go g = Some g' ∧ wf_grid n g' ∧
        ∀ i j, i < n → j < n →
          isAlive i j g' =
          Some (classic_rule (alive_at (lines_buffer g) i j)
                             (live_neighbours (lines g) i j), g').
Proof.
  intros Hwf. destruct (go_spec n g Hwf) as (g' & Hgo & Hwf' & _ & Hcells).
  exists g'. split; [done|]. split; [done|]. intros i j Hi Hj.
  rewrite (isAlive_alive_at n) by done.
  by rewrite (alive_at_cell_at _ _ _ _ (Hcells i j Hi Hj)).
Qed.

Lemma go_cell_rule_witness :
  wf_grid 5 seeded_blinker ∧
  ∃ g', go seeded_blinker = Some g' ∧
        isAlive 1 2 g' =
        Some (classic_rule (alive_at (lines_buffer seeded_blinker) 1 2)
                           (live_neighbours (lines seeded_blinker) 1 2), g').
Proof.
  assert (wf_grid 5 seeded_blinker) as Hwf
    by (apply wf_gridb_sound; reflexivity).
  split; [exact Hwf|].
  destruct (go_cell_rule 5 seeded_blinker Hwf) as (g' & Hgo & _ & Hcells).
  exists g'. split; [exact Hgo|]. apply Hcells; lia.
Defined.

(** X2. From the second generation on the program plays Conway's rule:
    if [g1] is what one [go] returned, the next [go] makes every cell the
    classic rule applied to the drawn buffer of [g1]. *)
Theorem go_classic_from_second_generation n g g1 :
  wf_grid n g → go g = Some g1 →
  ∃ g2, go g1 = Some g2 ∧
        ∀ i j, i < n → j < n →
          isAlive i j g2 =
          Some (classic_rule (alive_at (lines g1) i j)
                             (live_neighbours (lines g1) i j), g2).
Proof.
  intros Hwf Hgo.
  destruct (go_spec n g Hwf) as (g1' & Hgo' & Hwf1 & Hsync & _).
  assert (g1' = g1) as -> by congruence.
  destruct (go_cell_rule n g1 Hwf1) as (g2 & Hgo2 & _ & Hcells).
  exists g2. split; [done|]. intros i j Hi Hj.
  rewrite Hcells by done. by rewrite Hsync.
Qed.

Lemma go_classic_from_second_generation_witness :
  wf_grid 5 seeded_blinker ∧
  ∃ g1 g2, go seeded_blinker = Some g1 ∧ go g1 = Some g2 ∧
           isAlive 2 2 g2 =
           Some (classic_rule (alive_at (lines g1) 2 2)
                              (live_neighbours (lines g1) 2 2), g2).
Proof.
  assert (wf_grid 5 seeded_blinker) as Hwf
    by (apply wf_gridb_sound; reflexivity).
  split; [exact Hwf|].
  destruct (go_cell_rule 5 seeded_blinker Hwf) as (g1 & Hgo & _ & _).
  destruct (go_classic_from_second_generation 5 seeded_blinker g1 Hwf Hgo)
    as (g2 & Hgo2 & Hcells).
  exists g1, g2. split; [exact Hgo|]. split; [exact Hgo2|].
  apply Hcells; lia.
Defined.

(** X3. Where the stale hidden buffer matters: one [go] gives a cell the
    classic rule of the drawn buffer whenever the cell does not have
    exactly 2 live neighbours, or its hidden flag equals its drawn flag. *)
Theorem go_classic_unless_stale n g i j :
  wf_grid n g → i < n → j < n →
  live_neighbours (lines g) i j ≠ 2 ∨
    alive_at (lines_buffer g) i j = alive_at (lines g) i j →
  ∃ g', go g = Some g' ∧
        isAlive i j g' =
        Some (classic_rule (alive_at (lines g) i j)
                           (live_neighbours (lines g) i j), g').
Proof.
  intros Hwf Hi Hj Hcase.
  destruct (go_cell_rule n g Hwf) as (g' & Hgo & _ & Hcells).
  exists g'. split; [done|]. rewrite Hcells by done.
  destruct Hcase as [Hc|Heq]; [|by rewrite Heq].
  by rewrite (classic_rule_not_2 _ (alive_at (lines g) i j)).
Qed.

Lemma go_classic_unless_stale_witness :
  wf_grid 5 seeded_blinker ∧
  live_neighbours (lines seeded_blinker) 1 2 ≠ 2 ∧
  ∃ g', go seeded_blinker = Some g' ∧ isAlive 1 2 g' = Some (true, g').
Proof.
  assert (wf_grid 5 seeded_blinker) as Hwf
    by (apply wf_gridb_sound; reflexivity).
  assert (live_neighbours (lines seeded_blinker) 1 2 ≠ 2) as H3
    by (vm_compute; lia).
  split; [exact Hwf|]. split; [exact H3|].
  destruct (go_classic_unless_stale 5 seeded_blinker 1 2 Hwf)
    as (g' & Hgo & Hcell); [lia|lia|left; exact H3|].
  exists g'. split; [exact Hgo|exact Hcell].
Defined.

(** X4. The commit phase in one equation: [bufferToLines] makes the drawn
    buffer a copy of the hidden one and leaves the hidden one alone. *)
Theorem bufferToLines_copies n g :
  wf_grid n g →
  bufferToLines g = Some (mkGrid (lines_buffer g) (lines_buffer g)).
Proof.
  intros Hwf.
  destruct (bufferToLines_spec n g Hwf) as ([ls lb] & -> & Hb & _ & Hl).
  simpl in *. by subst.
Qed.

Lemma bufferToLines_copies_witness :
  wf_grid 5 seeded_blinker ∧
  bufferToLines seeded_blinker
  = Some (mkGrid (lines_buffer seeded_blinker) (lines_buffer seeded_blinker)).
Proof.
  assert (wf_grid 5 seeded_blinker) as Hwf
    by (apply wf_gridb_sound; reflexivity).
  split; [exact Hwf|]. exact (bufferToLines_copies 5 seeded_blinker Hwf).
Defined.

(** X5. Running the compute phase a second time changes nothing: the
    result of [linesToBuffer] is a fixed point of [linesToBuffer]. *)
Theorem linesToBuffer_idempotent n g g1 :
  wf_grid n g → linesToBuffer g = Some g1 → linesToBuffer g1 = Some g1.
Proof.
  intros Hwf Hrun.
  destruct (linesToBuffer_spec n g Hwf) as (g1' & Hrun' & Hl1 & Hwf1 & Hc1).
  assert (g1' = g1) as -> by congruence.
  destruct (linesToBuffer_spec n g1 Hwf1) as ([ls lb] & -> & Hl2 & Hwf2 & Hc2).
  f_equal. destruct g1 as [ls1 lb1]. simpl in *. subst ls. f_equal.
  apply (wf_buf_ext n); [apply Hwf2|apply Hwf1|].
  intros i j Hi Hj. rewrite Hc2, Hc1 by done. do 2 f_equal.
  rewrite (alive_at_cell_at _ _ _ _ (Hc1 i j Hi Hj)).
  by rewrite Hl1, classic_rule_twice.
Qed.

Lemma linesToBuffer_idempotent_witness :
  wf_grid 5 seeded_blinker ∧
  ∃ g1, linesToBuffer seeded_blinker = Some g1 ∧ linesToBuffer g1 = Some g1.
Proof.
  assert (wf_grid 5 seeded_blinker) as Hwf
    by (apply wf_gridb_sound; reflexivity).
  split; [exact Hwf|].
  destruct (linesToBuffer_spec 5 seeded_blinker Hwf) as (g1 & Hrun & _).
  exists g1. split; [exact Hrun|].
  exact (linesToBuffer_idempotent 5 seeded_blinker g1 Hwf Hrun).
Defined.

(** X6. Still lifes: [go] returns the very grid it was given exactly when
    the two buffers agree and the classic rule keeps every cell of the
    drawn buffer as it is. *)
Theorem go_fixed_point_iff n g :
  wf_grid n g →
  go g = Some g ↔
  lines_buffer g = lines g ∧
  ∀ i j, i < n → j < n →
    classic_rule (alive_at (lines g) i j) (live_neighbours (lines g) i j)
    = alive_at (lines g) i j.
Proof.
  intros Hwf. destruct (go_spec n g Hwf) as (g' & Hgo & Hwf' & Hsync & Hcells).
  split.
  - intros Hfix. assert (g' = g) as -> by congruence.
    split; [done|]. intros i j Hi Hj.
    pose proof (alive_at_cell_at _ _ _ _ (Hcells i j Hi Hj)) as Ha.
    rewrite <- Hsync in Ha. by symmetry.
  - intros [Heq Hstill]. rewrite Hgo. f_equal.
    assert (lines g' = lines g) as Hl.
    { apply (wf_buf_ext n); [apply Hwf'|apply Hwf|].
      intros i j Hi Hj. rewrite Hcells, Heq, Hstill by done.
      symmetry. apply (cell_at_Some_alive_at n); (done || apply Hwf). }
    destruct g as [ls lb], g' as [ls' lb']. simpl in *. congruence.
Qed.

Lemma go_fixed_point_iff_witness :
  wf_grid 4 (mkGrid block4 block4) ∧
  go (mkGrid block4 block4) = Some (mkGrid block4 block4).
Proof.
  assert (wf_grid 4 (mkGrid block4 block4)) as Hwf
    by (apply wf_gridb_sound; reflexivity).
  split; [exact Hwf|].
  apply (go_fixed_point_iff 4 (mkGrid block4 block4) Hwf).
  split; [reflexivity|]. intros i j Hi Hj.
  destruct i as [|[|[|[|i]]]]; [..|lia];
    (destruct j as [|[|[|[|j]]]]; [..|lia]); vm_compute; reflexivity.
Defined.

(** ** Neighbour counts on full and on small grids *)

Lemma live_neighbours_all_alive n ls i j :
  wf_buf n ls → 0 < n →
  (∀ x y, x < n → y < n → alive_at ls x y = true) →
  live_neighbours ls i j = 8.
Proof.
  intros [Hlen _] Hn Hfull. unfold live_neighbours. rewrite Hlen.
  unfold toroidal_neighbours, offsets. simpl map.
  rewrite !length_filter_alive. simpl.
  by rewrite !Hfull by (by apply wrap_lt).
Qed.

Lemma alive_at_setAlive_at_ne ls0 ls i j a x y :
  setAlive_at ls0 i j a = Some ls → ¬ (x = i ∧ y = j) →
  alive_at ls x y = alive_at ls0 x y.
Proof.
  intros Hset Hne. unfold alive_at.
  by rewrite (cell_at_setAlive_at _ _ _ _ _ x y Hset), decide_False.
Qed.

(** X7. Overcrowding: when every cell of the drawn buffer is alive, every
    cell is dead after one [go], on a grid of any size and whatever the
    hidden buffer holds. *)
Theorem go_all_alive_dies n g :
  wf_grid n g →
  (∀ x y, x < n → y < n → isAlive x y g = Some (true, g)) →
  ∃ g', go g = Some g' ∧
        ∀ x y, x < n → y < n → isAlive x y g' = Some (false, g').
Proof.
  intros Hwf Hfull.
  destruct (go_cell_rule n g Hwf) as (g' & Hgo & _ & Hcells).
  exists g'. split; [done|]. intros x y Hx Hy. rewrite Hcells by done.
  rewrite (live_neighbours_all_alive n); [|apply Hwf|lia|].
  - by destruct (alive_at (lines_buffer g) x y).
  - intros x' y' Hx' Hy'. specialize (Hfull x' y' Hx' Hy').
    rewrite (isAlive_alive_at n) in Hfull by done. congruence.
Qed.

Lemma go_all_alive_dies_witness :
  wf_grid 2 (mkGrid (buffer_of [[true; true]; [true; true]])
                    (buffer_of [[false; true]; [false; false]])) ∧
  ∃ g', go (mkGrid (buffer_of [[true; true]; [true; true]])
                   (buffer_of [[false; true]; [false; false]])) = Some g' ∧
        isAlive 0 1 g' = Some (false, g').
Proof.
  set (g := mkGrid (buffer_of [[true; true]; [true; true]])
                   (buffer_of [[false; true]; [false; false]])).
  assert (wf_grid 2 g) as Hwf by (apply wf_gridb_sound; reflexivity).
  split; [exact Hwf|].
  destruct (go_all_alive_dies 2 g Hwf) as (g' & Hgo & Hdead).
  - intros x y Hx Hy.
    destruct x as [|[|x]]; [..|lia]; (destruct y as [|[|y]]; [..|lia]);
      reflexivity.
  - exists g'. split; [exact Hgo|]. apply Hdead; lia.
Defined.

(** X8. A grid of one cell: the cell is its own neighbour 8 times over, so
    [countAliveCells(0, 0)] is 8 when it is alive and 0 when it is dead, and
    after [go] the cell is dead in either case. *)
Theorem one_cell_grid_counts_itself g :
  wf_grid 1 g →
  countAliveCells g 0 0 = Some (if alive_at (lines g) 0 0 then 8 else 0) ∧
  ∃ g', go g = Some g' ∧ isAlive 0 0 g' = Some (false, g').
Proof.
  intros Hwf.
  assert (live_neighbours (lines g) 0 0 = if alive_at (lines g) 0 0 then 8 else 0)
    as Hcount.
  { unfold live_neighbours. destruct Hwf as [[-> _] _].
    unfold toroidal_neighbours, offsets. simpl map.
    rewrite !length_filter_alive. simpl.
    change (wrap 1 0 (-1)) with 0. change (wrap 1 0 0) with 0.
    change (wrap 1 0 1) with 0. by destruct (alive_at (lines g) 0 0). }
  split.
  - rewrite (countAliveCells_live_neighbours 1) by (lia || apply Hwf).
    by rewrite Hcount.
  - destruct (go_cell_rule 1 g Hwf) as (g' & Hgo & _ & Hcells).
    exists g'. split; [done|]. rewrite Hcells, Hcount by lia.
    by destruct (alive_at (lines_buffer g) 0 0), (alive_at (lines g) 0 0).
Qed.

Lemma one_cell_grid_counts_itself_witness :
  wf_grid 1 (mkGrid (buffer_of [[true]]) (buffer_of [[true]])) ∧
  countAliveCells (mkGrid (buffer_of [[true]]) (buffer_of [[true]])) 0 0
  = Some 8.
Proof.
  assert (wf_grid 1 (mkGrid (buffer_of [[true]]) (buffer_of [[true]]))) as Hwf
    by (apply wf_gridb_sound; reflexivity).
  split; [exact Hwf|].
  exact (proj1 (one_cell_grid_counts_itself _ Hwf)).
Defined.

(** X9. A grid of side 2: the other cell of the row and the other cell of
    the column are counted twice each, and the diagonal cell four times. *)
Theorem two_by_two_grid_counts_repeat g i j :
  wf_grid 2 g → i < 2 → j < 2 →
  countAliveCells g i j =
  Some (2 * char_of_bool (alive_at (lines g) i (1 - j))
        + 2 * char_of_bool (alive_at (lines g) (1 - i) j)
        + 4 * char_of_bool (alive_at (lines g) (1 - i) (1 - j))).
Proof.
  intros Hwf Hi Hj.
  rewrite (countAliveCells_live_neighbours 2) by (done || apply Hwf).
  f_equal. unfold live_neighbours. destruct Hwf as [[-> _] _].
  unfold toroidal_neighbours, offsets. simpl map.
  rewrite !wrap_pred, !wrap_succ, !wrap_same by done.
  rewrite !length_filter_alive.
  destruct i as [|[|i]]; [..|lia]; (destruct j as [|[|j]]; [..|lia]);
    simpl; lia.
Qed.

Lemma two_by_two_grid_counts_repeat_witness :
  wf_grid 2 (mkGrid (buffer_of [[false; false]; [false; true]])
                    (buffer_of [[false; false]; [false; false]])) ∧
  countAliveCells (mkGrid (buffer_of [[false; false]; [false; true]])
                          (buffer_of [[false; false]; [false; false]])) 0 0
  = Some 4.
Proof.
  set (g := mkGrid (buffer_of [[false; false]; [false; true]])
                   (buffer_of [[false; false]; [false; false]])).
  assert (wf_grid 2 g) as Hwf by (apply wf_gridb_sound; reflexivity).
  split; [exact Hwf|].
  exact (two_by_two_grid_counts_repeat g 0 0 Hwf ltac:(lia) ltac:(lia)).
Defined.

(** X10. From side 2 on a cell is not its own neighbour:
    [countAliveCells(i, j)] does not change when the cell (i,j) of the drawn
    buffer is set to another value. *)
Theorem countAliveCells_ignores_own_cell n g i j a ls :
  wf_grid n g → 2 ≤ n → i < n → j < n →
  setAlive_at (lines g) i j a = Some ls →
  countAliveCells (mkGrid ls (lines_buffer g)) i j = countAliveCells g i j.
Proof.
  intros Hwf Hn Hi Hj Hset.
  assert (wf_buf n ls) as Hwfls by (eapply setAlive_at_wf; [done|apply Hwf]).
  rewrite (countAliveCells_live_neighbours n) by done.
  rewrite (countAliveCells_live_neighbours n g) by (done || apply Hwf).
  f_equal. simpl. unfold live_neighbours.
  destruct Hwfls as [-> _]. destruct Hwf as [[-> _] _].
  unfold toroidal_neighbours, offsets. simpl map.
  rewrite !wrap_pred, !wrap_succ, !wrap_same by done.
  rewrite !length_filter_alive. simpl.
  by rewrite !(alive_at_setAlive_at_ne _ _ _ _ _ _ _ Hset)
    by (repeat case_decide; lia).
Qed.

Lemma countAliveCells_ignores_own_cell_witness :
  wf_grid 5 seeded_blinker ∧ 2 ≤ 5 ∧
  ∃ ls, setAlive_at (lines seeded_blinker) 2 2 false = Some ls ∧
        countAliveCells (mkGrid ls (lines_buffer seeded_blinker)) 2 2
        = countAliveCells seeded_blinker 2 2.
Proof.
  assert (wf_grid 5 seeded_blinker) as Hwf
    by (apply wf_gridb_sound; reflexivity).
  split; [exact Hwf|]. split; [lia|]. eexists. split; [reflexivity|].
  apply (countAliveCells_ignores_own_cell 5 seeded_blinker 2 2 false);
    [exact Hwf|lia|lia|lia|reflexivity].
Defined.

(** X11. From side 3 on the 8 neighbour positions of a cell are 8 different
    cells, none of them the cell itself, so [countAliveCells] is the number
    of different alive cells around it. *)
Theorem neighbours_distinct n g i j :
  wf_grid n g → 3 ≤ n → i < n → j < n →
  NoDup (toroidal_neighbours n i j) ∧
  ((i, j) ∉ toroidal_neighbours n i j) ∧
  countAliveCells g i j = Some (live_neighbours (lines g) i j).
Proof.
  intros Hwf Hn Hi Hj.
  assert (countAliveCells g i j = Some (live_neighbours (lines g) i j)) as Hc
    by (apply (countAliveCells_live_neighbours n); (done || apply Hwf)).
  unfold toroidal_neighbours, offsets. simpl map.
  rewrite !wrap_pred, !wrap_succ, !wrap_same by done.
  set (xL := if decide (i = 0) then n - 1 else i - 1).
  set (xR := if decide (i = n - 1) then 0 else i + 1).
  set (yL := if decide (j = 0) then n - 1 else j - 1).
  set (yR := if decide (j = n - 1) then 0 else j + 1).
  assert (xL ≠ i ∧ xR ≠ i ∧ xL ≠ xR) as (Hx1 & Hx2 & Hx3)
    by (subst xL xR; repeat case_decide; lia).
  assert (yL ≠ j ∧ yR ≠ j ∧ yL ≠ yR) as (Hy1 & Hy2 & Hy3)
    by (subst yL yR; repeat case_decide; lia).
  clearbody xL xR yL yR.
  split; [|split; [|exact Hc]].
  - repeat (apply NoDup_cons_2;
      [rewrite ?not_elem_of_cons; repeat split;
         try apply not_elem_of_nil; intros [=]; congruence|]).
    apply NoDup_nil_2.
  - rewrite ?not_elem_of_cons. repeat split; try apply not_elem_of_nil;
      intros [=]; congruence.
Qed.

Lemma neighbours_distinct_witness :
  wf_grid 5 seeded_blinker ∧ 3 ≤ 5 ∧
  NoDup (toroidal_neighbours 5 0 4) ∧ ((0, 4) ∉ toroidal_neighbours 5 0 4).
Proof.
  assert (wf_grid 5 seeded_blinker) as Hwf
    by (apply wf_gridb_sound; reflexivity).
  split; [exact Hwf|]. split; [lia|].
  destruct (neighbours_distinct 5 seeded_blinker 0 4 Hwf)
    as (Hnd & Hself & _); [lia|lia|lia|].
  split; [exact Hnd|exact Hself].
Defined.

(** ** Bounds and reachable states *)

(** X12. [isAlive(x, y)] has a result exactly for coordinates inside the
    grid: outside of it the access [lines[xx][yy]] leaves a vector. *)
Theorem isAlive_defined_iff_in_range n g x y :
  wf_grid n g → is_Some (isAlive x y g) ↔ x < n ∧ y < n.
Proof.
  intros [[Hlen Hrows] _]. unfold isAlive, cell_at, Line_at. split.
  - intros [[b g'] Hsome].
    destruct (lines g !! x) as [l|] eqn:Hl; simpl in Hsome; [|done].
    destruct (cells_line l !! y) as [c|] eqn:Hc; simpl in Hsome; [|done].
    pose proof (Hrows x l Hl) as Hrow.
    apply lookup_lt_Some in Hl, Hc. lia.
  - intros [Hx Hy].
    destruct (lookup_lt_is_Some_2 (lines g) x) as [l Hl]; [lia|].
    rewrite Hl. simpl.
    destruct (lookup_lt_is_Some_2 (cells_line l) y) as [c Hc];
      [rewrite (Hrows x l Hl); lia|].
    rewrite Hc. simpl. eauto.
Qed.

Lemma isAlive_defined_iff_in_range_witness :
  wf_grid 5 seeded_blinker ∧
  (is_Some (isAlive 4 4 seeded_blinker) ↔ 4 < 5 ∧ 4 < 5) ∧
  (is_Some (isAlive 5 0 seeded_blinker) ↔ 5 < 5 ∧ 0 < 5).
Proof.
  assert (wf_grid 5 seeded_blinker) as Hwf
    by (apply wf_gridb_sound; reflexivity).
  split; [exact Hwf|].
  split; exact (isAlive_defined_iff_in_range 5 seeded_blinker _ _ Hwf).
Defined.

(** X13. No call sequence leaves a vector: in every state reached from a
    constructed grid by seeding and advancing, [go] returns a reachable
    grid of the same size, seeding with a percentage between 1 and 100
    returns a grid of the same size, and [isAlive] answers at every
    coordinate below the size. *)
Theorem reachable_operations_defined g :
  reachable g →
  (∃ g', go g = Some g' ∧ reachable g' ∧ size g' = size g) ∧
  (∀ p s, (1 ≤ p ≤ 100)%Z →
     ∃ g' s', Grid_initializeRandomly p g s = Some (g', s') ∧
              reachable g' ∧ size g' = size g) ∧
  (∀ x y, x < size g → y < size g → is_Some (isAlive x y g)).
Proof.
  intros Hreach. pose proof (reachable_wf g Hreach) as Hwf.
  split; [|split].
  - destruct (go_spec _ g Hwf) as (g' & Hgo & Hwf' & _).
    exists g'. split; [done|]. split; [by eapply reach_advance|].
    by apply wf_grid_size.
  - intros p s Hp.
    destruct (Grid_initializeRandomly_is_Some p g s Hp) as [[g' s'] Hrun].
    exists g', s'. split; [done|]. split; [by eapply reach_seed|].
    apply wf_grid_size. by eapply Grid_initializeRandomly_wf.
  - intros x y Hx Hy. by apply (isAlive_defined_iff_in_range (size g)).
Qed.

Lemma reachable_operations_defined_witness :
  reachable (Grid_new 3) ∧
  ∃ g', go (Grid_new 3) = Some g' ∧ reachable g' ∧ size g' = size (Grid_new 3).
Proof.
  split; [apply reach_construct|].
  exact (proj1 (reachable_operations_defined (Grid_new 3) (reach_construct 3))).
Defined.

(** ** Seeding *)

Lemma ilog10_cases p :
  (1 ≤ p ≤ 100)%Z →
  aux.ilog10 p = (if decide (p < 10)%Z then 0
                  else if decide (p < 100)%Z then 1 else 2)%Z.
Proof.
  intros Hp. unfold aux.ilog10. cbn [aux.ilog10_aux].
  case_decide as H10.
  { by apply Z.ltb_lt in H10 as ->. }
  assert ((p <? 10)%Z = false) as -> by (apply Z.ltb_ge; lia).
  assert (3 ≤ Z.log2 p)%Z
    by (change 3%Z with (Z.log2 8); apply Z.log2_le_mono; lia).
  destruct (Z.to_nat (Z.log2 p)) as [|[|m]] eqn:Hfuel; [lia|lia|].
  cbn [aux.ilog10_aux].
  case_decide as H100.
  - assert (p / 10 < 10)%Z as Hq by (apply Z.div_lt_upper_bound; lia).
    by apply Z.ltb_lt in Hq as ->.
  - assert (p = 100)%Z as -> by lia. reflexivity.
Qed.

(** X14. The scale of [rndBool]: for a percentage p from 1 to 9 the draw
    is reduced modulo 11, from 10 to 99 modulo 101, and for 100 modulo
    1001, and the answer is true exactly when the remainder is below p;
    one draw is consumed. The scale exceeds p, so no percentage makes the
    answer certain: a draw of 0 gives true and a draw of p gives false. *)
Theorem rndBool_scale p s :
  (1 ≤ p ≤ 100)%Z →
  let scale := (if decide (p < 10)%Z then 11
                else if decide (p < 100)%Z then 101 else 1001)%Z in
  aux.rndBool p s =
    Some (bool_decide (aux.draws s (aux.pos s) `mod` scale < p)%Z,
          aux.mkRand (aux.draws s) (S (aux.pos s))) ∧
  (aux.draws s (aux.pos s) = 0%Z → fst <$> aux.rndBool p s = Some true) ∧
  (aux.draws s (aux.pos s) = p → fst <$> aux.rndBool p s = Some false).
Proof.
  intros Hp scale.
  assert (10 ^ (aux.ilog10 p + 1) + 1 = scale)%Z as Hscale.
  { rewrite ilog10_cases by done. subst scale. by repeat case_decide. }
  assert (p < scale)%Z by (subst scale; repeat case_decide; lia).
  rewrite rndBool_spec, Hscale by done. split; [done|]. split.
  - intros ->. simpl. rewrite Z.mod_0_l by lia.
    by rewrite bool_decide_eq_true_2 by lia.
  - intros ->. simpl. rewrite Z.mod_small by lia.
    by rewrite bool_decide_eq_false_2 by lia.
Qed.

Lemma rndBool_scale_witness :
  (1 ≤ 7 ≤ 100)%Z ∧
  aux.rndBool 7 rand_100 =
    Some (bool_decide (100 `mod` 11 < 7)%Z, aux.mkRand (aux.draws rand_100) 1).
Proof.
  split; [lia|].
  exact (proj1 (rndBool_scale 7 rand_100 ltac:(lia))).
Defined.

Lemma seeded_alive_shift p s m k :
  seeded_alive p (aux.mkRand (aux.draws s) (aux.pos s + m)) k
  = seeded_alive p s (m + k).
Proof.
  unfold seeded_alive. cbn [aux.draws aux.pos]. by rewrite Nat.add_assoc.
Qed.

Lemma seed_cells p cs s :
  (1 ≤ p ≤ 100)%Z →
  for_each_mut
    (λ cell s, '(al, s1) ← aux.rndBool p s; Some (Cell_setAlive cell al, s1))
    cs s
  = Some (map (λ k, mkCell (seeded_alive p s k)) (seq 0 (length cs)),
          aux.mkRand (aux.draws s) (aux.pos s + length cs)).
Proof.
  intros Hp. revert s. induction cs as [|c cs IH]; intros s.
  - cbn [for_each_mut length seq map]. rewrite Nat.add_0_r. by destruct s.
  - cbn [for_each_mut length]. rewrite rndBool_spec by done.
    cbn [mbind option_bind]. rewrite IH. cbn [mbind option_bind aux.draws aux.pos].
    f_equal. f_equal; [|f_equal; lia].
    cbn [seq map]. f_equal.
    + unfold seeded_alive, Cell_setAlive. by rewrite Nat.add_0_r.
    + rewrite <- seq_shift, map_map. apply map_ext. intros k. f_equal.
      pose proof (seeded_alive_shift p s 1 k) as Hshift.
      by rewrite Nat.add_1_r in Hshift.
Qed.

Lemma seed_line p l s :
  (1 ≤ p ≤ 100)%Z →
  Line_initializeRandomly p l s
  = Some (mkLine (map (λ k, mkCell (seeded_alive p s k))
                      (seq 0 (length (cells_line l)))),
          aux.mkRand (aux.draws s) (aux.pos s + length (cells_line l))).
Proof.
  intros Hp. unfold Line_initializeRandomly. by rewrite seed_cells.
Qed.

Lemma seed_lines n p ls s :
  (1 ≤ p ≤ 100)%Z →
  (∀ i l, ls !! i = Some l → length (cells_line l) = n) →
  for_each_mut (Line_initializeRandomly p) ls s
  = Some (map (λ i, mkLine (map (λ j, mkCell (seeded_alive p s (i * n + j)))
                                (seq 0 n)))
              (seq 0 (length ls)),
          aux.mkRand (aux.draws s) (aux.pos s + length ls * n)).
Proof.
  intros Hp. revert s. induction ls as [|l ls IH]; intros s Hrows.
  - cbn [for_each_mut length seq map]. rewrite Nat.add_0_r. by destruct s.
  - cbn [for_each_mut length]. rewrite seed_line by done.
    rewrite (Hrows 0 l) by done.
    cbn [mbind option_bind]. rewrite IH by (intros i l'; apply (Hrows (S i))).
    cbn [mbind option_bind aux.draws aux.pos].
    f_equal. f_equal; [|f_equal; lia].
    cbn [seq map]. f_equal.
    rewrite <- seq_shift, map_map. apply map_ext. intros i. f_equal.
    apply map_ext. intros j. f_equal.
    rewrite seeded_alive_shift. f_equal. lia.
Qed.

(** X15. Seeding in one formula: on an n by n grid [initializeRandomly]
    with a percentage between 1 and 100 consumes exactly n*n draws, in row
    order, and afterwards [isAlive(i, j)] is the answer of [rndBool] on draw
    number i*n+j; the cells the drawn buffer held before do not matter,
    and the hidden buffer is left as it was. *)
Theorem seed_cells_from_draws n p g s :
  wf_grid n g → (1 ≤ p ≤ 100)%Z →
  ∃ g', Grid_initializeRandomly p g s
          = Some (g', aux.mkRand (aux.draws s) (aux.pos s + n * n)) ∧
        lines_buffer g' = lines_buffer g ∧
        ∀ i j, i < n → j < n →
          isAlive i j g' = Some (seeded_alive p s (i * n + j), g').
Proof.
  intros [[Hlen Hrows] _] Hp. unfold Grid_initializeRandomly.
  rewrite (seed_lines n) by done. rewrite Hlen.
  cbn [mbind option_bind]. eexists. split; [reflexivity|].
  split; [reflexivity|]. intros i j Hi Hj.
  unfold isAlive, cell_at, Line_at. cbn [lines].
  rewrite list_lookup_fmap, lookup_seq_lt by done. cbn [fmap option_fmap option_map mbind option_bind cells_line].
  rewrite list_lookup_fmap, lookup_seq_lt by done. reflexivity.
Qed.

Lemma seed_cells_from_draws_witness :
  wf_grid 5 (Grid_new 5) ∧ (1 ≤ 30 ≤ 100)%Z ∧
  ∃ g', Grid_initializeRandomly 30 (Grid_new 5) rand_blinker
          = Some (g', aux.mkRand (aux.draws rand_blinker) 25) ∧
        isAlive 2 3 g' = Some (seeded_alive 30 rand_blinker 13, g').
Proof.
  split; [apply wf_grid_new|]. split; [lia|].
  destruct (seed_cells_from_draws 5 30 (Grid_new 5) rand_blinker
              (wf_grid_new 5)) as (g' & Hrun & _ & Hcells); [lia|].
  exists g'. split; [exact Hrun|]. apply Hcells; lia.
Defined.

(** ** The console *)

Lemma draw_cell_spec n tr g i j :
  wf_grid n g → i < n → j < n →
  draw_cell i j (tr, g) = Some (tr ++ [marker (alive_at (lines g) i j)], g).
Proof.
  intros Hwf Hi Hj. unfold draw_cell. cbn [fst snd].
  by rewrite (isAlive_alive_at n).
Qed.

Lemma draw_row_spec n tr g i :
  wf_grid n g → i < n →
  draw_row i (tr, g) = Some (tr ++ row_events n (lines g) i, g).
Proof.
  intros Hwf Hi. unfold draw_row. cbn [fst snd].
  rewrite (wf_grid_size n) by done.
  destruct (for_range_inv (draw_cell i)
    (λ m w, w = (tr ++ map (λ j, marker (alive_at (lines g) i j)) (seq 0 m), g))
    n (tr, g)) as (w & -> & ->).
  - cbn [seq map]. by rewrite app_nil_r.
  - intros m w Hm ->. eexists. split; [by apply (draw_cell_spec n)|].
    by rewrite seq_S, map_app, app_assoc.
  - cbn [mbind option_bind fst snd]. unfold row_events. by rewrite app_assoc.
Qed.

Lemma draw_spec n tr g :
  wf_grid n g → draw (tr, g) = Some (tr ++ frame_events n (lines g), g).
Proof.
  intros Hwf. unfold draw. cbn [fst snd]. rewrite (wf_grid_size n) by done.
  destruct (for_range_inv draw_row
    (λ k w, w = (tr ++ SystemClear
                    :: flat_map (row_events n (lines g)) (seq 0 k), g))
    n (tr ++ [SystemClear], g)) as (w & -> & ->).
  - done.
  - intros k w Hk ->. eexists. split; [by apply (draw_row_spec n)|].
    rewrite seq_S, flat_map_app. cbn [flat_map]. rewrite app_nil_r.
    by rewrite <- app_assoc.
  - done.
Qed.

Lemma marker_inj b1 b2 : marker b1 = marker b2 → b1 = b2.
Proof. by destruct b1, b2. Qed.

Lemma flat_map_inj_pointwise {A B} (f g : A → list B) l :
  (∀ a, length (f a) = length (g a)) →
  flat_map f l = flat_map g l → ∀ a, a ∈ l → f a = g a.
Proof.
  intros Hlen. induction l as [|x l IH]; intros Heq a Ha.
  - by apply not_elem_of_nil in Ha.
  - cbn [flat_map] in Heq. apply app_inj_1 in Heq as [Hx Hl]; [|done].
    apply elem_of_cons in Ha as [->|Ha]; [done|by apply IH].
Qed.

Lemma length_row_events n ls i : length (row_events n ls i) = n + 3.
Proof.
  unfold row_events. by rewrite length_app, length_map, length_seq.
Qed.

Lemma length_frame_events n ls : length (frame_events n ls) = 1 + n * (n + 3).
Proof.
  unfold frame_events. cbn [length]. f_equal.
  assert (∀ l : list nat,
    length (flat_map (row_events n ls) l) = length l * (n + 3)) as Hl.
  { induction l as [|i l IH]; [done|].
    cbn [flat_map length]. by rewrite length_app, length_row_events, IH. }
  by rewrite Hl, length_seq.
Qed.

Lemma frame_events_inj n ls1 ls2 :
  wf_buf n ls1 → wf_buf n ls2 →
  frame_events n ls1 = frame_events n ls2 → ls1 = ls2.
Proof.
  intros Hwf1 Hwf2 [= Heq]. apply (wf_buf_ext n); [done..|].
  intros i j Hi Hj.
  rewrite (cell_at_Some_alive_at n ls1), (cell_at_Some_alive_at n ls2) by done.
  do 2 f_equal.
  pose proof (flat_map_inj_pointwise _ _ _
    (λ a, eq_trans (length_row_events n ls1 a)
                   (eq_sym (length_row_events n ls2 a))) Heq i) as Hrow.
  unfold row_events in Hrow.
  apply app_inj_1 in Hrow as [Hcells _];
    [|by rewrite !length_map|apply elem_of_seq; lia].
  apply marker_inj.
  pose proof (proj1 map_ext_in_iff Hcells j) as Hmark. cbv beta in Hmark.
  apply Hmark, in_seq. lia.
Qed.

(** X16. What [draw] does: on an n by n grid it clears the screen, then
    prints row after row the n markers of the drawn buffer ('*' for an
    alive cell, a blank for a dead one), a blank, the row number and a line
    end, 1 + n*(n+3) events in all; the grid is unchanged and the hidden
    buffer is never shown. *)
Theorem draw_prints_drawn_buffer n tr g :
  wf_grid n g →
  draw (tr, g) = Some (tr ++ frame_events n (lines g), g) ∧
  length (frame_events n (lines g)) = 1 + n * (n + 3) ∧
  ∀ i j, i < n → j < n →
    frame_events n (lines g) !! (1 + i * (n + 3) + j)
    = Some (marker (alive_at (lines g) i j)).
Proof.
  intros Hwf. split; [by apply draw_spec|].
  split; [apply length_frame_events|]. intros i j Hi Hj.
  unfold frame_events. cbn [lookup list_lookup Nat.add].
  change (flat_map (row_events n (lines g)) (seq 0 n) !! (i * (n + 3) + j)
          = Some (marker (alive_at (lines g) i j))).
  assert (∀ (l : list nat) a, l !! i = Some a →
    flat_map (row_events n (lines g)) l !! (i * (n + 3) + j)
    = row_events n (lines g) a !! j) as Hlookup.
  { clear Hi. induction i as [|i IH]; intros [|x l] a Hl; simplify_eq/=.
    - apply lookup_app_l. rewrite length_row_events. lia.
    - rewrite lookup_app_r by (rewrite length_row_events; lia).
      rewrite length_row_events.
      replace (n + 3 + i * (n + 3) + j - (n + 3)) with (i * (n + 3) + j) by lia.
      by apply IH. }
  rewrite (Hlookup _ i) by (by apply lookup_seq_lt).
  unfold row_events. rewrite lookup_app_l by (rewrite length_map, length_seq; lia).
  by rewrite list_lookup_fmap, lookup_seq_lt.
Qed.

Lemma draw_prints_drawn_buffer_witness :
  wf_grid 5 seeded_blinker ∧
  draw ([], seeded_blinker)
  = Some ([] ++ frame_events 5 (lines seeded_blinker), seeded_blinker).
Proof.
  assert (wf_grid 5 seeded_blinker) as Hwf
    by (apply wf_gridb_sound; reflexivity).
  split; [exact Hwf|].
  exact (proj1 (draw_prints_drawn_buffer 5 [] seeded_blinker Hwf)).
Defined.

(** X17. The frame loses nothing: two n by n grids for which [draw] emits
    the same events have the same drawn buffer. *)
Theorem draw_determines_drawn_buffer n tr g1 g2 w1 w2 :
  wf_grid n g1 → wf_grid n g2 →
  draw (tr, g1) = Some w1 → draw (tr, g2) = Some w2 →
  fst w1 = fst w2 → lines g1 = lines g2.
Proof.
  intros Hwf1 Hwf2 Hd1 Hd2 Heq.
  rewrite (draw_spec n) in Hd1, Hd2 by done.
  injection Hd1 as <-. injection Hd2 as <-. cbn [fst] in Heq.
  apply app_inv_head in Heq.
  apply (frame_events_inj n); [apply Hwf1|apply Hwf2|done].
Qed.

Lemma draw_determines_drawn_buffer_witness :
  wf_grid 5 seeded_blinker ∧ wf_grid 5 (mkGrid blinker_h blinker_h) ∧
  lines seeded_blinker = lines (mkGrid blinker_h blinker_h).
Proof.
  assert (wf_grid 5 seeded_blinker) as Hwf1
    by (apply wf_gridb_sound; reflexivity).
  assert (wf_grid 5 (mkGrid blinker_h blinker_h)) as Hwf2
    by (apply wf_gridb_sound; reflexivity).
  split; [exact Hwf1|]. split; [exact Hwf2|].
  apply (draw_determines_drawn_buffer 5 [] seeded_blinker
           (mkGrid blinker_h blinker_h)
           ([] ++ frame_events 5 (lines seeded_blinker), seeded_blinker)
           ([] ++ frame_events 5 blinker_h, mkGrid blinker_h blinker_h)
           Hwf1 Hwf2).
  - exact (proj1 (draw_prints_drawn_buffer 5 [] seeded_blinker Hwf1)).
  - exact (proj1 (draw_prints_drawn_buffer 5 [] _ Hwf2)).
  - reflexivity.
Defined.

(** ** The program *)

Lemma main_body_spec n tr g :
  wf_grid n g →
  ∃ g', go g = Some g' ∧
        main_body (tr, g)
        = Some (tr ++ frame_events n (lines g) ++ [SleepSeconds 1], g').
Proof.
  intros Hwf. destruct (go_spec n g Hwf) as (g' & Hgo & _).
  exists g'. split; [done|]. unfold main_body.
  rewrite (draw_spec n) by done. cbn [mbind option_bind fst snd].
  rewrite Hgo. cbn [mbind option_bind]. by rewrite <- app_assoc.
Qed.

Lemma main_upto_S k s :
  main_upto (S k) s = w ← main_upto k s; main_body w.
Proof.
  unfold main_upto. destruct (main_start s) as [[w s']|]; [|done].
  cbn [mbind option_bind]. rewrite replicate_S_end, for_each_app.
  destruct (for_each _ (replicate k ()) w) as [w'|]; [|done].
  cbn [mbind option_bind for_each]. by destruct (main_body w').
Qed.

Lemma main_start_spec s :
  ∃ g, main_upto 0 s = Some ([], g) ∧ wf_grid 20 g ∧ reachable g ∧
       ∀ i j, i < 20 → j < 20 →
         isAlive i j g = Some (seeded_alive 30 s (i * 20 + j), g).
Proof.
  destruct (seed_cells_from_draws 20 30 (Grid_new 20) s (wf_grid_new 20))
    as (g & Hrun & _ & Hcells); [lia|].
  exists g. unfold main_upto, main_start. rewrite Hrun.
  split; [reflexivity|].
  split; [exact (Grid_initializeRandomly_wf 20 _ _ _ _ _ Hrun (wf_grid_new 20))|].
  split; [|exact Hcells].
  exact (reach_seed _ _ _ _ _ (reach_construct 20) Hrun).
Qed.

Lemma main_upto_spec k s :
  ∃ tr g, main_upto k s = Some (tr, g) ∧ wf_grid 20 g ∧ reachable g ∧
          length tr = k * 462 ∧ (0 < k → lines_buffer g = lines g).
Proof.
  induction k as [|k (tr & g & Hrun & Hwf & Hreach & Hlen & _)].
  - destruct (main_start_spec s) as (g & Hrun & Hwf & Hreach & _).
    exists [], g. split; [exact Hrun|]. split; [exact Hwf|].
    split; [exact Hreach|]. split; [reflexivity|lia].
  - destruct (main_body_spec 20 tr g Hwf) as (g' & Hgo & Hbody).
    destruct (go_spec 20 g Hwf) as (g'' & Hgo' & Hwf' & Hsync & _).
    assert (g'' = g') as -> by congruence.
    eexists _, g'. rewrite main_upto_S, Hrun. cbn [mbind option_bind].
    split; [exact Hbody|]. split; [exact Hwf'|].
    split; [exact (reach_advance _ _ Hreach Hgo)|].
    split; [|intros _; symmetry; exact Hsync].
    rewrite !length_app, length_frame_events, Hlen.
    change (length [SleepSeconds 1]) with 1.
    change (1 + 20 * (20 + 3)) with 461. lia.
Qed.

(** X18. [main] never leaves a vector: whatever state [std::srand] leaves
    [std::rand] in, the program gets through any number k of rounds of its
    loop; after them the grid is 20 by 20, 462 events have been emitted per
    round (one clear, 20 rows of 20 markers with blank, row number and line
    end, one sleep of a second), and from the first round on the two
    buffers agree. *)
Theorem main_runs_any_number_of_rounds k s :
  ∃ tr g, main_upto k s = Some (tr, g) ∧ wf_grid 20 g ∧ reachable g ∧
          length tr = k * 462 ∧ (0 < k → lines_buffer g = lines g).
Proof. apply main_upto_spec. Qed.

Lemma main_runs_any_number_of_rounds_witness :
  ∃ tr g, main_upto 3 rand_zero = Some (tr, g) ∧ length tr = 3 * 462 ∧
          lines_buffer g = lines g.
Proof.
  destruct (main_runs_any_number_of_rounds 3 rand_zero)
    as (tr & g & Hrun & _ & _ & Hlen & Hsync).
  exists tr, g. split; [exact Hrun|]. split; [exact Hlen|]. apply Hsync. lia.
Defined.

(** X19. The first frame [main] shows is the seeding: cell (i,j) is alive
    exactly when draw number i*20+j of [std::rand], reduced modulo 101, is
    below 30; the first round prints that frame and sleeps. *)
Theorem main_first_frame s :
  ∃ g0 g1,
    main_upto 0 s = Some ([], g0) ∧
    main_upto 1 s
      = Some (frame_events 20 (lines g0) ++ [SleepSeconds 1], g1) ∧
    go g0 = Some g1 ∧
    ∀ i j, i < 20 → j < 20 →
      alive_at (lines g0) i j
      = bool_decide (aux.draws s (aux.pos s + (i * 20 + j)) `mod` 101 < 30)%Z.
Proof.
  destruct (main_start_spec s) as (g0 & Hrun & Hwf & _ & Hcells).
  destruct (main_body_spec 20 [] g0 Hwf) as (g1 & Hgo & Hbody).
  exists g0, g1. split; [exact Hrun|]. split; [|split; [exact Hgo|]].
  - rewrite main_upto_S, Hrun. exact Hbody.
  - intros i j Hi Hj. specialize (Hcells i j Hi Hj).
    rewrite (isAlive_alive_at 20) in Hcells by assumption.
    injection Hcells as ->. reflexivity.
Qed.

(** X20. From the second frame on [main] shows Conway's Game of Life: for
    every round k from 1 on, the round prints the frame of the grid it
    starts with and then sleeps, and the grid of the next round is the
    classic rule applied to that frame's buffer, with the neighbours taken
    on the torus. *)
Theorem main_plays_classic_rule k s :
  1 ≤ k →
  ∃ tr g g',
    main_upto k s = Some (tr, g) ∧
    main_upto (S k) s
      = Some (tr ++ frame_events 20 (lines g) ++ [SleepSeconds 1], g') ∧
    ∀ i j, i < 20 → j < 20 →
      alive_at (lines g') i j
      = classic_rule (alive_at (lines g) i j) (live_neighbours (lines g) i j).
Proof.
  intros Hk.
  destruct (main_upto_spec k s) as (tr & g & Hrun & Hwf & _ & _ & Hsync).
  destruct (main_body_spec 20 tr g Hwf) as (g' & Hgo & Hbody).
  exists tr, g, g'. split; [exact Hrun|]. split.
  - rewrite main_upto_S, Hrun. exact Hbody.
  - destruct (go_classic_when_buffers_agree 20 g Hwf)
      as (g'' & Hgo' & Hcells); [apply Hsync; lia|].
    assert (g'' = g') as -> by congruence.
    intros i j Hi Hj. apply alive_at_cell_at, Hcells; assumption.
Qed.

Lemma main_plays_classic_rule_witness :
  1 ≤ 1 ∧
  ∃ tr g g',
    main_upto 1 rand_zero = Some (tr, g) ∧
    main_upto 2 rand_zero
      = Some (tr ++ frame_events 20 (lines g) ++ [SleepSeconds 1], g') ∧
    alive_at (lines g') 0 0
    = classic_rule (alive_at (lines g) 0 0) (live_neighbours (lines g) 0 0).
Proof.
  split; [lia|].
  destruct (main_plays_classic_rule 1 rand_zero) as (tr & g & g' & H1 & H2 & Hc);
    [lia|].
  exists tr, g, g'. split; [exact H1|]. split; [exact H2|]. apply Hc; lia.
Defined.
